(** * LettuceDetect web API: the detection gateway, its schema and its clients

    A shallow embedding of [api/main.py], [api/client.py] and [api/serve.py].

    - Python objects are a small universe [pyval]; a [dict] is a [gmap] over
      strings, a [float] is an IEEE-754 value ([spec_float]).
    - A raising Python call returns an [outcome]: the value or the exception.
    - The coroutines of [main.py] are terms of a free monad [coro] whose
      operations are the three things the handlers do to the outside world:
      take the lock, hand [detector.predict] to the thread pool, give the lock
      back.  The same term is run alone (one request) or interleaved with
      others by the event loop. *)

From Stdlib Require Import ZArith Lia Ascii.
From Stdlib Require Import Floats.SpecFloat.
From stdpp Require Import gmap strings list.

Set Warnings "-register-all".
Local Open Scope string_scope.
Local Open Scope list_scope.

(** ** Python values *)

Definition pyfloat : Set := spec_float.

Inductive pyval :=
| PNone
| PBool (b : bool)
| PInt (z : Z)
| PFloat (f : pyfloat)
| PStr (s : string)
| PList (l : list pyval)
| PDict (d : gmap string pyval).

(** A text that is meant to hold a JSON document: the document it parses to,
    or a text that does not parse. *)
Inductive text_body :=
| Json (doc : pyval)
| Malformed (raw : string).

(** An exception object: its class, its message and its [__cause__].
    [httpx.HTTPStatusError] (a subclass of [httpx.HTTPError]) also holds the
    response it was raised for: its status and its body. *)
Inductive pyexc :=
| Exc (cls : string) (msg : string) (cause : option pyexc)
| HTTPStatusError (status : Z) (body : text_body).

Definition exc_class (e : pyexc) : string :=
  match e with
  | Exc c _ _ => c
  | HTTPStatusError _ _ => "HTTPStatusError"
  end.

Definition exc_cause (e : pyexc) : option pyexc :=
  match e with
  | Exc _ _ c => c
  | HTTPStatusError _ _ => None
  end.

Inductive outcome (A : Type) :=
| Return (a : A)
| Raise (e : pyexc).
Arguments Return {A} a.
Arguments Raise {A} e.

#[global] Instance outcome_bind : MBind outcome := λ A B f o,
  match o with
  | Return a => f a
  | Raise e => Raise e
  end.
#[global] Instance outcome_ret : MRet outcome := λ A a, Return a.

(** [[f(p) for p in l]]: the first raising element aborts the comprehension. *)
Fixpoint comprehension {A B} (f : A → outcome B) (l : list A) : outcome (list B) :=
  match l with
  | [] => Return []
  | p :: l' => y ← f p; ys ← comprehension f l'; Return (y :: ys)
  end.

Definition KeyError (k : string) : pyexc := Exc "KeyError" k None.
Definition TypeError (m : string) : pyexc := Exc "TypeError" m None.
Definition ValidationError (m : string) : pyexc := Exc "ValidationError" m None.

Definition is_ValidationError (e : pyexc) : Prop := exc_class e = "ValidationError".

(** [p[k]] *)
Definition getitem (p : pyval) (k : string) : outcome pyval :=
  match p with
  | PDict d => match d !! k with
               | Some v => Return v
               | None => Raise (KeyError k)
               end
  | _ => Raise (TypeError "object is not subscriptable")
  end.

(** [for p in preds] *)
Definition iter (p : pyval) : outcome (list pyval) :=
  match p with
  | PList l => Return l
  | PDict d => Return (PStr <$> (map_to_list d).*1)
  | PStr s => Return ((λ c, PStr (String c EmptyString)) <$> String.list_ascii_of_string s)
  | _ => Raise (TypeError "object is not iterable")
  end.

(** ** Schema layer ([main.py], lines 13-41) *)

Record Settings := {
  lettucedetect_model : string;
  lettucedetect_method : string }.

Definition settings : Settings :=
  {| lettucedetect_model := "KRLabsOrg/lettucedect-base-modernbert-en-v1";
     lettucedetect_method := "transformer" |}.

Record DetectionRequest := {
  contexts : list string;
  question : string;
  answer : string }.

Record TokenDetectionItem := {
  token : string;
  token_hallucination_score : pyfloat }.

Record SpanDetectionItem := {
  start : Z;
  span_end : Z;
  text : string;
  span_hallucination_score : pyfloat }.

Record TokenDetectionResponse := { token_predictions : list TokenDetectionItem }.
Record SpanDetectionResponse := { span_predictions : list SpanDetectionItem }.

(** *** Validation

    The models are plain pydantic models: no validators, no strict mode.  A
    field is filled from the input by pydantic's lax conversion.  The
    conversions that parse or round ([str] to number, [int] to [float],
    [float] to [int]) belong to pydantic; they are parameters here. *)

Record LaxCoercion := {
  str_as_int : string → option Z;
  str_as_float : string → option pyfloat;
  int_as_float : Z → option pyfloat;
  float_as_int : pyfloat → option Z }.

Section Validation.
Context (lax : LaxCoercion).

Definition of_option {A} (what : string) (o : option A) : outcome A :=
  match o with
  | Some a => Return a
  | None => Raise (ValidationError what)
  end.

Definition validate_str (v : pyval) : outcome string :=
  match v with
  | PStr s => Return s
  | _ => Raise (ValidationError "string_type")
  end.

Definition validate_int (v : pyval) : outcome Z :=
  match v with
  | PInt z => Return z
  | PBool b => Return (if b then 1 else 0)%Z
  | PFloat f => of_option "int_from_float" (float_as_int lax f)
  | PStr s => of_option "int_parsing" (str_as_int lax s)
  | _ => Raise (ValidationError "int_type")
  end.

Definition validate_float (v : pyval) : outcome pyfloat :=
  match v with
  | PFloat f => Return f
  | PInt z => of_option "float_type" (int_as_float lax z)
  | PBool b => of_option "float_type" (int_as_float lax (if b then 1 else 0)%Z)
  | PStr s => of_option "float_parsing" (str_as_float lax s)
  | _ => Raise (ValidationError "float_type")
  end.

Definition validate_list {A} (item : pyval → outcome A) (v : pyval) : outcome (list A) :=
  match v with
  | PList l => comprehension item l
  | _ => Raise (ValidationError "list_type")
  end.

(** A required field: a missing key is an error, other keys are ignored. *)
Definition field {A} (d : gmap string pyval) (k : string)
    (item : pyval → outcome A) : outcome A :=
  match d !! k with
  | Some v => item v
  | None => Raise (ValidationError ("missing: " ++ k)%string)
  end.

Definition validate_DetectionRequest (v : pyval) : outcome DetectionRequest :=
  match v with
  | PDict d =>
      c ← field d "contexts" (validate_list validate_str);
      q ← field d "question" validate_str;
      a ← field d "answer" validate_str;
      Return {| contexts := c; question := q; answer := a |}
  | _ => Raise (ValidationError "model_type")
  end.

Definition validate_TokenDetectionItem (v : pyval) : outcome TokenDetectionItem :=
  match v with
  | PDict d =>
      t ← field d "token" validate_str;
      h ← field d "hallucination_score" validate_float;
      Return {| token := t; token_hallucination_score := h |}
  | _ => Raise (ValidationError "model_type")
  end.

Definition validate_SpanDetectionItem (v : pyval) : outcome SpanDetectionItem :=
  match v with
  | PDict d =>
      s ← field d "start" validate_int;
      e ← field d "end" validate_int;
      t ← field d "text" validate_str;
      h ← field d "hallucination_score" validate_float;
      Return {| start := s; span_end := e; text := t; span_hallucination_score := h |}
  | _ => Raise (ValidationError "model_type")
  end.

Definition validate_TokenDetectionResponse (v : pyval) : outcome TokenDetectionResponse :=
  match v with
  | PDict d =>
      ps ← field d "predictions" (validate_list validate_TokenDetectionItem);
      Return {| token_predictions := ps |}
  | _ => Raise (ValidationError "model_type")
  end.

Definition validate_SpanDetectionResponse (v : pyval) : outcome SpanDetectionResponse :=
  match v with
  | PDict d =>
      ps ← field d "predictions" (validate_list validate_SpanDetectionItem);
      Return {| span_predictions := ps |}
  | _ => Raise (ValidationError "model_type")
  end.
End Validation.

(** ** Coroutines

    What a handler of [main.py] does to the world outside it: it takes and
    gives back [detector_lock], and it awaits [detector.predict] run in the
    thread pool.  Everything else is pure. *)

Record predict_call := {
  call_context : list string;
  call_question : string;
  call_answer : string;
  call_output_format : string }.

Inductive coro (A : Type) :=
| Finished (r : outcome A)
| LockAcquire (k : coro A)
| LockRelease (k : coro A)
| RunInThreadpool (c : predict_call) (k : outcome pyval → coro A).
Arguments Finished {A} r.
Arguments LockAcquire {A} k.
Arguments LockRelease {A} k.
Arguments RunInThreadpool {A} c k.

(** [await c] followed by the rest of the body; an exception skips the rest. *)
Fixpoint await {A B} (c : coro A) (f : A → coro B) : coro B :=
  match c with
  | Finished (Return a) => f a
  | Finished (Raise e) => Finished (Raise e)
  | LockAcquire k => LockAcquire (await k f)
  | LockRelease k => LockRelease (await k f)
  | RunInThreadpool c k => RunInThreadpool c (λ r, await (k r) f)
  end.

#[global] Instance coro_bind : MBind coro := λ A B f c, await c f.
#[global] Instance coro_ret : MRet coro := λ A a, Finished (Return a).

(** [__aexit__]: the lock is given back on the way out of the block, whether
    the block returned or raised. *)
Fixpoint release_on_exit {A} (body : coro A) : coro A :=
  match body with
  | Finished r => LockRelease (Finished r)
  | LockAcquire k => LockAcquire (release_on_exit k)
  | LockRelease k => LockRelease (release_on_exit k)
  | RunInThreadpool c k => RunInThreadpool c (λ r, release_on_exit (k r))
  end.

(** [async with detector_lock: body] *)
Definition async_with_detector_lock {A} (body : coro A) : coro A :=
  LockAcquire (release_on_exit body).

(** [await run_in_threadpool(detector.predict, context=.., ..)] *)
Definition run_in_threadpool (c : predict_call) : coro pyval :=
  RunInThreadpool c Finished.

(** ** Detection gateway ([main.py], lines 71-102) *)

Definition run_detector_safe (request : DetectionRequest) (output_format : string)
    : coro pyval :=
  preds ← async_with_detector_lock
    (run_in_threadpool
       {| call_context := contexts request;
          call_question := question request;
          call_answer := answer request;
          call_output_format := output_format |});
  mret preds.

Definition convert_token (p : pyval) : outcome pyval :=
  t ← getitem p "token";
  h ← getitem p "prob";
  mret (PDict (<["token" := t]> (<["hallucination_score" := h]> ∅))).

Definition run_token_detection (request : DetectionRequest) : coro pyval :=
  preds ← run_detector_safe request "tokens";
  Finished (ps ← iter preds;
            preds_converted ← comprehension convert_token ps;
            mret (PDict (<["predictions" := PList preds_converted]> ∅))).

Definition convert_span (p : pyval) : outcome pyval :=
  s ← getitem p "start";
  e ← getitem p "end";
  t ← getitem p "text";
  h ← getitem p "confidence";
  mret (PDict (<["start" := s]> (<["end" := e]> (<["text" := t]>
         (<["hallucination_score" := h]> ∅))))).

Definition run_span_detection (request : DetectionRequest) : coro pyval :=
  preds ← run_detector_safe request "spans";
  Finished (ps ← iter preds;
            preds_converted ← comprehension convert_span ps;
            mret (PDict (<["predictions" := PList preds_converted]> ∅))).

(** The route decorators: [response_model=...] makes the framework validate
    what the handler returned against the response model; a value that does
    not fit is a [ResponseValidationError]. *)
Definition ResponseValidationError (cause : pyexc) : pyexc :=
  Exc "ResponseValidationError" "" (Some cause).

Definition response_model {A} (validate : pyval → outcome A) (v : pyval) : outcome A :=
  match validate v with
  | Return a => Return a
  | Raise e => Raise (ResponseValidationError e)
  end.

Definition token_route (lax : LaxCoercion) (request : DetectionRequest)
    : coro TokenDetectionResponse :=
  content ← run_token_detection request;
  Finished (response_model (validate_TokenDetectionResponse lax) content).

Definition spans_route (lax : LaxCoercion) (request : DetectionRequest)
    : coro SpanDetectionResponse :=
  content ← run_span_detection request;
  Finished (response_model (validate_SpanDetectionResponse lax) content).

(** ** One request at a time

    The detector is a stateful object; [predict] may change it.  A request
    served alone runs its coroutine to the end. *)

Record world (D : Type) := {
  detector : D;
  detector_lock : bool;
  calls : list predict_call }.
Arguments detector {D} w.
Arguments detector_lock {D} w.
Arguments calls {D} w.

Definition RuntimeError (m : string) : pyexc := Exc "RuntimeError" m None.

Section Alone.
Context {D : Type} (predict : D → predict_call → outcome pyval * D).

(** [None]: the coroutine waits for a lock nobody will give back. *)
Fixpoint run_alone {A} (c : coro A) (w : world D) : option (outcome A * world D) :=
  match c with
  | Finished r => Some (r, w)
  | LockAcquire k =>
      if detector_lock w then None
      else run_alone k {| detector := detector w; detector_lock := true;
                          calls := calls w |}
  | LockRelease k =>
      if detector_lock w
      then run_alone k {| detector := detector w; detector_lock := false;
                          calls := calls w |}
      else Some (Raise (RuntimeError "Lock is not acquired."), w)
  | RunInThreadpool c k =>
      let '(r, d) := predict (detector w) c in
      run_alone (k r) {| detector := d; detector_lock := detector_lock w;
                         calls := calls w ++ [c] |}
  end.
End Alone.

Definition startup {D} (d : D) : world D :=
  {| detector := d; detector_lock := false; calls := [] |}.

(** ** Many requests: the event loop

    A task is a coroutine that is ready to go on, or one whose [predict] is
    running in a worker thread. *)

Inductive task (A : Type) :=
| Ready (c : coro A)
| InThread (c : predict_call) (k : outcome pyval → coro A).
Arguments Ready {A} c.
Arguments InThread {A} c k.

Record loop (A : Type) := {
  lock : bool;
  tasks : list (task A) }.
Arguments lock {A} l.
Arguments tasks {A} l.

Inductive event :=
| Resume (i : nat)
| ThreadDone (i : nat) (r : outcome pyval).

Definition step {A} (s : loop A) (e : event) : option (loop A) :=
  match e with
  | Resume i =>
      match tasks s !! i with
      | Some (Ready (LockAcquire k)) =>
          if lock s then None
          else Some {| lock := true; tasks := <[i := Ready k]> (tasks s) |}
      | Some (Ready (LockRelease k)) =>
          if lock s
          then Some {| lock := false; tasks := <[i := Ready k]> (tasks s) |}
          else Some {| lock := false;
                       tasks := <[i := Ready (Finished (Raise
                                  (RuntimeError "Lock is not acquired.")))]> (tasks s) |}
      | Some (Ready (RunInThreadpool c k)) =>
          Some {| lock := lock s; tasks := <[i := InThread c k]> (tasks s) |}
      | _ => None
      end
  | ThreadDone i r =>
      match tasks s !! i with
      | Some (InThread c k) =>
          Some {| lock := lock s; tasks := <[i := Ready (k r)]> (tasks s) |}
      | _ => None
      end
  end.

Fixpoint run {A} (s : loop A) (tr : list event) : option (loop A) :=
  match tr with
  | [] => Some s
  | e :: tr' => match step s e with
                | Some s' => run s' tr'
                | None => None
                end
  end.

Definition executing {A} (t : task A) : bool :=
  match t with
  | InThread _ _ => true
  | Ready _ => false
  end.

(** The number of [detector.predict] calls running at this instant. *)
Definition in_flight {A} (s : loop A) : nat :=
  length (filter (λ t, executing t = true) (tasks s)).

Definition waiting_for_lock {A} (s : loop A) (i : nat) : Prop :=
  ∃ k, tasks s !! i = Some (Ready (LockAcquire k)).

Definition being_served {A} (s : loop A) (i : nat) : Prop :=
  ∃ c k, tasks s !! i = Some (InThread c k).

(** A detection request as the transport hands it to the gateway. *)
Inductive mode := Tokens | Spans.

Definition handler (m : mode) (request : DetectionRequest) : coro pyval :=
  match m with
  | Tokens => run_token_detection request
  | Spans => run_span_detection request
  end.

Definition accept (reqs : list (mode * DetectionRequest)) : loop pyval :=
  {| lock := false; tasks := (λ '(m, r), Ready (handler m r)) <$> reqs |}.

(** The course of a handler past the lock: it arrives and asks for the
    lock, holds it and hands [predict] to the thread pool, leaves by giving
    the lock back, and has left. *)
Inductive phase := Arriving | Holding | Leaving | Left.

Fixpoint follows {A} (ph : phase) (c : coro A) : Prop :=
  match c with
  | LockAcquire k => ph = Arriving ∧ follows Holding k
  | RunInThreadpool _ k => ph = Holding ∧ ∀ r, follows Leaving (k r)
  | LockRelease k => ph = Leaving ∧ follows Left k
  | Finished _ => ph = Left
  end.

Definition idle {A} (t : task A) : Prop :=
  match t with
  | Ready c => follows Arriving c ∨ follows Left c
  | InThread _ _ => False
  end.

Definition holds_lock {A} (t : task A) : Prop :=
  match t with
  | Ready c => follows Holding c ∨ follows Leaving c
  | InThread _ k => ∀ r, follows Leaving (k r)
  end.

(** The lock is free and nobody is inside, or it is taken and exactly one
    task is inside. *)
Definition exclusive {A} (s : loop A) : Prop :=
  if lock s
  then ∃ j t, tasks s !! j = Some t ∧ holds_lock t ∧
              ∀ i t', i ≠ j → tasks s !! i = Some t' → idle t'
  else ∀ i t, tasks s !! i = Some t → idle t.

(** How many steps of the event loop a task still needs. *)
Fixpoint steps_left {A} (c : coro A) : nat :=
  match c with
  | Finished _ => 0
  | LockAcquire k => S (steps_left k)
  | LockRelease k => S (steps_left k)
  | RunInThreadpool _ k => S (S (steps_left (k (Return PNone))))
  end.

Definition weight {A} (t : task A) : nat :=
  match t with
  | Ready c => steps_left c
  | InThread _ k => S (steps_left (k (Return PNone)))
  end.

Definition total_weight {A} (s : loop A) : nat := sum_list (weight <$> tasks s).

Definition finished {A} (t : task A) : Prop := ∃ r, t = Ready (Finished r).

(** ** Serialization of the response models

    [model_dump_json] writes the fields under their names.  JSON has no
    notation for NaN and the infinities: pydantic writes them as [null]
    (its [ser_json_inf_nan] setting, which the models leave at its default).
    [model_validate_json] parses the text and validates the document. *)

Definition is_finite (f : pyfloat) : bool :=
  match f with
  | S754_zero _ | S754_finite _ _ _ => true
  | S754_infinity _ | S754_nan => false
  end.

Definition dump_float (f : pyfloat) : pyval :=
  if is_finite f then PFloat f else PNone.

Definition dump_TokenDetectionItem (it : TokenDetectionItem) : pyval :=
  PDict (<["token" := PStr (token it)]>
         (<["hallucination_score" := dump_float (token_hallucination_score it)]> ∅)).

Definition dump_SpanDetectionItem (it : SpanDetectionItem) : pyval :=
  PDict (<["start" := PInt (start it)]> (<["end" := PInt (span_end it)]>
         (<["text" := PStr (text it)]>
         (<["hallucination_score" := dump_float (span_hallucination_score it)]> ∅)))).

Definition dump_TokenDetectionResponse (r : TokenDetectionResponse) : text_body :=
  Json (PDict (<["predictions" :=
                 PList (dump_TokenDetectionItem <$> token_predictions r)]> ∅)).

Definition dump_SpanDetectionResponse (r : SpanDetectionResponse) : text_body :=
  Json (PDict (<["predictions" :=
                 PList (dump_SpanDetectionItem <$> span_predictions r)]> ∅)).

Definition model_validate_json {A} (validate : pyval → outcome A) (t : text_body)
    : outcome A :=
  match t with
  | Json doc => validate doc
  | Malformed _ => Raise (ValidationError "json_invalid")
  end.

(** [dict(request)] *)
Definition dict_DetectionRequest (r : DetectionRequest) : pyval :=
  PDict (<["contexts" := PList (PStr <$> contexts r)]>
         (<["question" := PStr (question r)]>
         (<["answer" := PStr (answer r)]> ∅))).

(** ** Character offsets: [answer[start:end]] *)

Definition slice_index (len i : Z) : Z :=
  let i := if (i <? 0)%Z then (i + len)%Z else i in
  if (i <? 0)%Z then 0%Z else if (len <? i)%Z then len else i.

Definition py_slice (s : string) (i j : Z) : string :=
  let len := Z.of_nat (String.length s) in
  let a := slice_index len i in
  let b := slice_index len j in
  String.substring (Z.to_nat a) (Z.to_nat (b - a)) s.

Definition span_within (answer : string) (s e : Z) (t : string) : bool :=
  (0 <=? s)%Z && (s <=? e)%Z && (e <=? Z.of_nat (String.length answer))%Z
  && String.eqb t (py_slice answer s e).

(** The invariant of a [SpanDetectionItem] of a request with this answer. *)
Definition span_item_ok (answer : string) (it : SpanDetectionItem) : Prop :=
  (0 ≤ start it ∧ start it ≤ span_end it ∧
   span_end it ≤ Z.of_nat (String.length answer))%Z ∧
  text it = py_slice answer (start it) (span_end it).

(** ** What the detector gives back

    [HallucinationDetector] lives in [lettucedetect/models/inference.py].  The
    gateway reads two keys of each token entry and four of each span entry. *)

Definition is_raw_token (p : pyval) : bool :=
  match p with
  | PDict d =>
      match d !! "token", d !! "prob" with
      | Some (PStr _), Some (PFloat _) => true
      | _, _ => false
      end
  | _ => false
  end.

Definition is_raw_span (p : pyval) : bool :=
  match p with
  | PDict d =>
      match d !! "start", d !! "end", d !! "text", d !! "confidence" with
      | Some (PInt _), Some (PInt _), Some (PStr _), Some (PFloat _) => true
      | _, _, _, _ => false
      end
  | _ => false
  end.

(** Modelled from the spec: the span output of [HallucinationDetector.predict]
    (the detector is not among the sources).  The spec's data model has
    [start] and [end] as character offsets into [answer] with
    [start <= end], both within [[0, len(answer)]], and [text] the substring
    [answer[start:end]]. *)
Definition detector_span (answer : string) (p : pyval) : bool :=
  match p with
  | PDict d =>
      match d !! "start", d !! "end", d !! "text", d !! "confidence" with
      | Some (PInt s), Some (PInt e), Some (PStr t), Some (PFloat _) =>
          span_within answer s e t
      | _, _, _, _ => false
      end
  | _ => false
  end.

(** ** Transport binding

    What the framework does around a route: the body is validated into a
    [DetectionRequest] (a failure is answered 422 and the handler is not
    run), the handler runs, its result is rendered; an exception that leaves
    the handler is answered 500 with a fixed body. *)

Record Response := {
  status_code : Z;
  text_of : text_body }.

Definition InternalServerError : Response :=
  {| status_code := 500; text_of := Malformed "Internal Server Error" |}.

Definition UnprocessableEntity : Response :=
  {| status_code := 422; text_of := Json (PDict (<["detail" := PList []]> ∅)) |}.

Section Transport.
Context {D : Type} (predict : D → predict_call → outcome pyval * D).
Context (lax : LaxCoercion).

Definition serve {T} (route : DetectionRequest → coro T) (render : T → text_body)
    (body : text_body) (w : world D) : option (Response * world D) :=
  match model_validate_json validate_DetectionRequest body with
  | Raise _ => Some (UnprocessableEntity, w)
  | Return request =>
      match run_alone predict (route request) w with
      | None => None
      | Some (Return r, w') => Some ({| status_code := 200; text_of := render r |}, w')
      | Some (Raise _, w') => Some (InternalServerError, w')
      end
  end.

Definition post_token := serve (token_route lax) dump_TokenDetectionResponse.
Definition post_spans := serve (spans_route lax) dump_SpanDetectionResponse.
End Transport.

(** ** URLs

    A URL string is kept as [urlsplit] has it; a string that [urlsplit]
    reads as nothing, like [//], stands for the empty string.  The path
    parameters of [urlparse] are left in the path: the endpoints have
    none. *)

Record URL := {
  url_scheme : string;
  url_netloc : string;
  url_path : string;
  url_query : string;
  url_fragment : string }.

Definition url_of_path (p : string) : URL :=
  {| url_scheme := ""; url_netloc := ""; url_path := p;
     url_query := ""; url_fragment := "" |}.

Definition url_is_empty (u : URL) : bool :=
  String.eqb (url_scheme u) "" && String.eqb (url_netloc u) ""
  && String.eqb (url_path u) "" && String.eqb (url_query u) ""
  && String.eqb (url_fragment u) "".

(** [s.split(sep)] *)
Fixpoint split (sep : ascii) (s : string) : list string :=
  match s with
  | EmptyString => [""]
  | String c s' =>
      if Ascii.eqb c sep then "" :: split sep s'
      else match split sep s' with
           | [] => [String c ""]
           | w :: ws => String c w :: ws
           end
  end.

Definition slash : ascii := "/"%char.

Definition nonempty (s : string) : bool := negb (String.eqb s "").

(** [segments[1:-1] = filter(None, segments[1:-1])] *)
Definition drop_empty_inner (segments : list string) : list string :=
  match segments with
  | [] => []
  | first :: rest =>
      match reverse rest with
      | [] => [first]
      | last :: inner_rev =>
          (first :: List.filter nonempty (reverse inner_rev) ++ [last])%list
      end
  end.

Fixpoint resolve_dots (segments resolved : list string) : list string :=
  match segments with
  | [] => resolved
  | seg :: segs =>
      if String.eqb seg ".." then resolve_dots segs (removelast resolved)
      else if String.eqb seg "." then resolve_dots segs resolved
      else resolve_dots segs (resolved ++ [seg])%list
  end.

Definition or_slash (p : string) : string :=
  if String.eqb p "" then "/" else p.

Section Urljoin.
(** [urllib.parse.uses_relative] and [uses_netloc]. *)
Context (uses_relative uses_netloc : list string).

Definition mem (s : string) (l : list string) : bool := existsb (String.eqb s) l.

Definition urljoin (base url : URL) : URL :=
  if url_is_empty base then url
  else if url_is_empty url then base
  else
    let bscheme := url_scheme base in
    let scheme := if String.eqb (url_scheme url) "" then bscheme else url_scheme url in
    if negb (String.eqb scheme bscheme) || negb (mem scheme uses_relative) then url
    else if mem scheme uses_netloc && nonempty (url_netloc url) then
      {| url_scheme := scheme; url_netloc := url_netloc url; url_path := url_path url;
         url_query := url_query url; url_fragment := url_fragment url |}
    else
      let netloc := if mem scheme uses_netloc then url_netloc base else url_netloc url in
      if String.eqb (url_path url) "" then
        {| url_scheme := scheme; url_netloc := netloc; url_path := url_path base;
           url_query := if String.eqb (url_query url) "" then url_query base
                        else url_query url;
           url_fragment := url_fragment url |}
      else
        let base_parts := split slash (url_path base) in
        let base_parts := if nonempty (List.last base_parts "") then removelast base_parts
                          else base_parts in
        let segments :=
          if String.prefix "/" (url_path url) then split slash (url_path url)
          else drop_empty_inner (base_parts ++ split slash (url_path url))%list in
        let resolved := resolve_dots segments [] in
        let resolved :=
          if mem (List.last segments "") ["."; ".."] then (resolved ++ [""])%list else resolved in
        {| url_scheme := scheme; url_netloc := netloc;
           url_path := or_slash (String.concat "/" resolved);
           url_query := url_query url; url_fragment := url_fragment url |}.
End Urljoin.

(** ** The network, as the clients see it *)

Record Request := {
  req_method : string;
  req_url : URL;
  req_json : pyval }.

Record net (N : Type) := {
  remote : N;
  sent : list Request }.
Arguments remote {N} n.
Arguments sent {N} n.

Definition upper_char (c : ascii) : ascii :=
  let n := Ascii.nat_of_ascii c in
  if (97 <=? n)%nat && (n <=? 122)%nat then Ascii.ascii_of_nat (n - 32) else c.

Fixpoint upper (s : string) : string :=
  match s with
  | EmptyString => EmptyString
  | String c s' => String (upper_char c) (upper s')
  end.

(** [response.raise_for_status()] *)
Definition is_success (r : Response) : bool :=
  (200 <=? status_code r)%Z && (status_code r <=? 299)%Z.

Definition raise_for_status (r : Response) : outcome Response :=
  if is_success r then Return r
  else Raise (HTTPStatusError (status_code r) (text_of r)).

(** A non-blocking call: finished, or waiting for the answer to a request. *)
Inductive aio (A : Type) :=
| AioDone (r : outcome A)
| AioRequest (rq : Request) (k : outcome Response → aio A).
Arguments AioDone {A} r.
Arguments AioRequest {A} rq k.

Fixpoint aio_await {A B} (c : aio A) (f : A → aio B) : aio B :=
  match c with
  | AioDone (Return a) => f a
  | AioDone (Raise e) => AioDone (Raise e)
  | AioRequest rq k => AioRequest rq (λ r, aio_await (k r) f)
  end.

#[global] Instance aio_bind : MBind aio := λ A B f c, aio_await c f.

(** ** Client binding ([client.py]) *)

Definition _TOKEN_ENDPOINT : string := "/v1/lettucedetect/token".
Definition _SPANS_ENDPOINT : string := "/v1/lettucedetect/spans".

Record LettuceClientBase := { base_url : URL }.

Section Client.
Context {N : Type} (transport : N → Request → outcome Response * N).
Context (lax : LaxCoercion) (uses_relative uses_netloc : list string).

(** A blocking call changes the network and returns or raises. *)
Definition blocking (A : Type) : Type := net N → outcome A * net N.

(** [httpx.request(method, url, json=...)]: one exchange with the server. *)
Definition httpx_request (method : string) (url : URL) (json : pyval)
    : blocking Response := λ n,
  let rq := {| req_method := upper method; req_url := url; req_json := json |} in
  let '(r, n') := transport (remote n) rq in
  (r, {| remote := n'; sent := sent n ++ [rq] |}).

Definition _httpx_request_wrapper {T} (method : string) (url : URL)
    (request : DetectionRequest) (response_model : pyval → outcome T)
    : blocking T := λ n,
  let '(r, n') := httpx_request method url (dict_DetectionRequest request) n in
  (response ← r;
   _ ← raise_for_status response;
   model_validate_json response_model (text_of response), n').

(** [async with httpx.AsyncClient() as client: await client.request(...)] *)
Definition client_request (method : string) (url : URL) (json : pyval)
    : aio Response :=
  AioRequest {| req_method := upper method; req_url := url; req_json := json |} AioDone.

Definition _httpx_request_wrapper_async {T} (method : string) (url : URL)
    (request : DetectionRequest) (response_model : pyval → outcome T) : aio T :=
  response ← client_request method url (dict_DetectionRequest request);
  AioDone (_ ← raise_for_status response;
           model_validate_json response_model (text_of response)).

(** The event loop drives a non-blocking call to its end. *)
Fixpoint run_until_complete {A} (c : aio A) : blocking A := λ n,
  match c with
  | AioDone r => (r, n)
  | AioRequest rq k =>
      let '(r, n') := transport (remote n) rq in
      run_until_complete (k r) {| remote := n'; sent := sent n ++ [rq] |}
  end.

Definition LettuceClient_detect_token (self : LettuceClientBase)
    (contexts : list string) (question answer : string)
    : blocking TokenDetectionResponse :=
  let request := {| contexts := contexts; question := question; answer := answer |} in
  let url := urljoin uses_relative uses_netloc (base_url self) (url_of_path _TOKEN_ENDPOINT) in
  _httpx_request_wrapper "post" url request (validate_TokenDetectionResponse lax).

Definition LettuceClient_detect_spans (self : LettuceClientBase)
    (contexts : list string) (question answer : string)
    : blocking SpanDetectionResponse :=
  let request := {| contexts := contexts; question := question; answer := answer |} in
  let url := urljoin uses_relative uses_netloc (base_url self) (url_of_path _SPANS_ENDPOINT) in
  _httpx_request_wrapper "post" url request (validate_SpanDetectionResponse lax).

Definition LettuceClientAsync_detect_token (self : LettuceClientBase)
    (contexts : list string) (question answer : string)
    : aio TokenDetectionResponse :=
  let request := {| contexts := contexts; question := question; answer := answer |} in
  let url := urljoin uses_relative uses_netloc (base_url self) (url_of_path _TOKEN_ENDPOINT) in
  _httpx_request_wrapper_async "post" url request (validate_TokenDetectionResponse lax).

Definition LettuceClientAsync_detect_spans (self : LettuceClientBase)
    (contexts : list string) (question answer : string)
    : aio SpanDetectionResponse :=
  let request := {| contexts := contexts; question := question; answer := answer |} in
  let url := urljoin uses_relative uses_netloc (base_url self) (url_of_path _SPANS_ENDPOINT) in
  _httpx_request_wrapper_async "post" url request (validate_SpanDetectionResponse lax).
End Client.

(** The request a detection call puts on the wire. *)
Definition detect_request (uses_relative uses_netloc : list string)
    (self : LettuceClientBase) (endpoint : string)
    (contexts : list string) (question answer : string) : Request :=
  {| req_method := "POST";
     req_url := urljoin uses_relative uses_netloc (base_url self) (url_of_path endpoint);
     req_json := dict_DetectionRequest
                   {| contexts := contexts; question := question; answer := answer |} |}.

(** ** The routes of [app]

    [FastAPI(lifespan=init_detector)] comes with its documentation routes;
    the two [@app.post] decorators add the detection routes. *)

Inductive endpoint :=
| Openapi
| SwaggerUI
| SwaggerRedirect
| Redoc
| TokenDetection
| SpanDetection.

Record Route := {
  route_path : string;
  route_methods : list string;
  route_endpoint : endpoint }.

Definition get (p : string) (e : endpoint) : Route :=
  {| route_path := p; route_methods := ["GET"; "HEAD"]; route_endpoint := e |}.

Definition post (p : string) (e : endpoint) : Route :=
  {| route_path := p; route_methods := ["POST"]; route_endpoint := e |}.

Definition app_routes : list Route :=
  [ get "/openapi.json" Openapi;
    get "/docs" SwaggerUI;
    get "/docs/oauth2-redirect" SwaggerRedirect;
    get "/redoc" Redoc;
    post "/lettucedetect/token" TokenDetection;
    post "/lettucedetect/spans" SpanDetection ].

Definition is_detection (e : endpoint) : bool :=
  match e with
  | TokenDetection | SpanDetection => true
  | _ => false
  end.

Inductive Match := NONE | PARTIAL | FULL.

Definition newline : string := String "010"%char "".

(** [re.compile("^" + re.escape(path) + "$").match(route_path)]: the regex
    of a path without parameters.  [$] matches at the end of the string and
    just before a newline that ends it. *)
Definition path_regex_match (path route_path : string) : bool :=
  String.eqb route_path path || String.eqb route_path (path ++ newline)%string.

Definition matches (r : Route) (method path : string) : Match :=
  if path_regex_match (route_path r) path
  then if mem method (route_methods r) then FULL else PARTIAL
  else NONE.

Inductive routed :=
| Handle (e : endpoint)
| MethodNotAllowed
| RedirectSlashes (to : string)
| NotFound.

Fixpoint first_match (routes : list Route) (method path : string)
    (partial : option Route) : option Route * option Route :=
  match routes with
  | [] => (None, partial)
  | r :: rs =>
      match matches r method path with
      | FULL => (Some r, partial)
      | PARTIAL => first_match rs method path
                     (match partial with Some p => Some p | None => Some r end)
      | NONE => first_match rs method path partial
      end
  end.

Fixpoint rstrip_slash_rev (s : list ascii) : list ascii :=
  match s with
  | c :: s' => if Ascii.eqb c slash then rstrip_slash_rev s' else s
  | [] => []
  end.

(** [path.rstrip("/")] *)
Definition rstrip_slash (s : string) : string :=
  String.string_of_list_ascii
    (reverse (rstrip_slash_rev (reverse (String.list_ascii_of_string s)))).

Definition ends_with_slash (s : string) : bool :=
  match reverse (String.list_ascii_of_string s) with
  | c :: _ => Ascii.eqb c slash
  | [] => false
  end.

Definition any_match (routes : list Route) (method path : string) : bool :=
  existsb (λ r, match matches r method path with NONE => false | _ => true end) routes.

Definition dispatch (routes : list Route) (method path : string) : routed :=
  match first_match routes method path None with
  | (Some r, _) => Handle (route_endpoint r)
  | (None, Some _) => MethodNotAllowed
  | (None, None) =>
      if negb (String.eqb path "/") then
        let other := if ends_with_slash path then rstrip_slash path
                     else (path ++ "/")%string in
        if any_match routes method other then RedirectSlashes other else NotFound
      else NotFound
  end.

(** Where a request of a client ends up in this server. *)
Definition reaches (rq : Request) : routed :=
  dispatch app_routes (req_method rq) (url_path (req_url rq)).

(** ** The launch script ([serve.py])

    The parser knows [-h]/[--help], [--model] and [--method]; there are no
    positional arguments.  The scan of the command line is that of
    [ArgumentParser._parse_known_args]: every argument is first classified
    ([O] for an option, [A] for an argument, [-] for a bare [--]), then the
    options are taken from left to right with their values; what belongs to
    no option is collected and refused at the end. *)

Record Namespace := {
  model : string;
  method : string }.

Inductive action := Help | StoreModel | StoreMethod.

Definition option_strings : list (string * action) :=
  [("-h", Help); ("--help", Help); ("--model", StoreModel); ("--method", StoreMethod)].

Definition method_choices : list string := ["transformer"].

Definition defaults : Namespace :=
  {| model := "KRLabsOrg/lettucedect-base-modernbert-en-v1";
     method := "transformer" |}.

(** What parsing ends in: the namespace, or [SystemExit] with its code
    (0 after the help text, 2 after a usage error). *)
Inductive parsed :=
| Parsed (ns : Namespace)
| SystemExit (code : Z).

(** An argument of the command line, as [_parse_optional] sees it: an
    argument ([A]), the bare [--], an option of the parser with the option
    string it stands for and the value written with it, an option the parser
    does not know, or an abbreviation of more than one option. *)
Inductive arg_class :=
| Positional (s : string)
| Separator
| Flag (a : action) (option_string : string) (explicit : option string)
| Unknown (s : string)
| Ambiguous (s : string).

Fixpoint lookup_option (s : string) (l : list (string * action)) : option action :=
  match l with
  | [] => None
  | (o, a) :: l' => if String.eqb s o then Some a else lookup_option s l'
  end.

(** [s.partition("=")] *)
Fixpoint partition_eq (s : string) : string * option string :=
  match s with
  | EmptyString => (EmptyString, None)
  | String c s' =>
      if Ascii.eqb c "="%char then (EmptyString, Some s')
      else let '(a, b) := partition_eq s' in (String c a, b)
  end.

Definition is_digit (c : ascii) : bool :=
  let n := Ascii.nat_of_ascii c in (48 <=? n)%nat && (n <=? 57)%nat.

Fixpoint all_digits (s : string) : bool :=
  match s with
  | EmptyString => true
  | String c s' => is_digit c && all_digits s'
  end.

(** [s] without the newline that ends it, if one does. *)
Fixpoint chomp (s : string) : string :=
  match s with
  | EmptyString => EmptyString
  | String c s' =>
      if Ascii.eqb c "010"%char && String.eqb s' "" then EmptyString
      else String c (chomp s')
  end.

(** [^-\d+$|^-\d*\.\d+$], on ASCII digits; [$] also matches before a newline
    that ends the string. *)
Definition negative_number (s : string) : bool :=
  match s with
  | String "-"%char rest =>
      match split "."%char (chomp rest) with
      | [n] => nonempty n && all_digits n
      | [n; f] => all_digits n && nonempty f && all_digits f
      | _ => false
      end
  | _ => false
  end.

Fixpoint has_space (s : string) : bool :=
  match s with
  | EmptyString => false
  | String c s' => Ascii.eqb c " "%char || has_space s'
  end.

(** The options that [prefix], which begins with [--], abbreviates. *)
Definition abbreviates (prefix : string) : list (string * action) :=
  List.filter (λ '(o, _), String.prefix prefix o) option_strings.

(** [_parse_optional] *)
Definition classify (s : string) : arg_class :=
  match s with
  | String "-"%char rest =>
      match lookup_option s option_strings with
      | Some a => Flag a s None
      | None =>
          if String.eqb rest "" then Positional s
          else
            let '(name, explicit) := partition_eq s in
            match explicit, lookup_option name option_strings with
            | Some _, Some a => Flag a name explicit
            | _, _ =>
                if String.prefix "--" s then
                  match abbreviates name with
                  | [(o, a)] => Flag a o explicit
                  | _ :: _ :: _ => Ambiguous s
                  | [] => if has_space s then Positional s else Unknown s
                  end
                else
                  let short := String.substring 0 2 s in
                  match lookup_option short option_strings with
                  | Some a => Flag a short (Some (String.substring 2 (String.length s - 2) s))
                  | None =>
                      if negative_number s then Positional s
                      else if has_space s then Positional s
                      else Unknown s
                  end
            end
      end
  | _ => Positional s
  end.

(** After a bare [--] every argument is an argument. *)
Fixpoint classify_all (argv : list string) : list arg_class :=
  match argv with
  | [] => []
  | s :: rest =>
      if String.eqb s "--" then Separator :: (Positional <$> rest)
      else classify s :: classify_all rest
  end.

(** [take_action] of a storing option: the value is checked against the
    choices, then stored. *)
Definition store (a : action) (v : string) (ns : Namespace) : parsed :=
  match a with
  | Help => SystemExit 0
  | StoreModel => Parsed {| model := v; method := method ns |}
  | StoreMethod =>
      if mem v method_choices then Parsed {| model := model ns; method := v |}
      else SystemExit 2
  end.

(** What is written behind a single-dash option that takes no value is read
    as more single-dash options ([-xyz] is [-x -y -z]); [-h] is the only one
    there is.  True when all of [explicit_arg] is used up that way. *)
Fixpoint more_short_options (explicit_arg : string) : bool :=
  match explicit_arg with
  | EmptyString => false
  | String c rest =>
      match lookup_option (String "-"%char (String c "")) option_strings with
      | Some Help => String.eqb rest "" || more_short_options rest
      | _ => false
      end
  end.

(** The loop of [_parse_known_args] with [consume_optional]: an option that
    takes a value takes the one written with it, or else the next argument,
    which has to be an [A]; arguments and unknown options go to [extras],
    and a command line that leaves any is refused by [parse_args]. *)
Fixpoint consume (args : list arg_class) (ns : Namespace) (extras : list string) : parsed :=
  match args with
  | [] => match extras with [] => Parsed ns | _ :: _ => SystemExit 2 end
  | Positional s :: rest => consume rest ns (extras ++ [s])
  | Separator :: rest => consume rest ns (extras ++ ["--"])
  | Unknown s :: rest => consume rest ns (extras ++ [s])
  | Ambiguous _ :: _ => SystemExit 2
  | Flag Help _ None :: _ => SystemExit 0
  | Flag Help o (Some e) :: _ =>
      if negb (String.prefix "--" o) && more_short_options e then SystemExit 0
      else SystemExit 2
  | Flag a _ (Some v) :: rest =>
      match store a v ns with
      | Parsed ns' => consume rest ns' extras
      | SystemExit c => SystemExit c
      end
  | Flag a _ None :: Positional v :: rest =>
      match store a v ns with
      | Parsed ns' => consume rest ns' extras
      | SystemExit c => SystemExit c
      end
  | Flag _ _ None :: _ => SystemExit 2
  end.

(** An abbreviation of more than one option is an error as soon as the
    command line is classified, before any option is taken. *)
Definition has_ambiguous (args : list arg_class) : bool :=
  existsb (λ a, match a with Ambiguous _ => true | _ => false end) args.

(** [_argparse()] on the command line [argv]. *)
Definition _argparse (argv : list string) : parsed :=
  let args := classify_all argv in
  if has_ambiguous args then SystemExit 2
  else consume args defaults [].





(** ** Concrete data: the scenario of the spec and the test suite *)

Definition france : DetectionRequest :=
  {| contexts := ["France is a country in Europe. The capital of France is Paris."];
     question := "What is the capital of France? What is the population of France?";
     answer := "The capital of France is Paris. The population of France is 69 million." |}.

Definition no_coercion : LaxCoercion :=
  {| str_as_int := λ _, None; str_as_float := λ _, None;
     int_as_float := λ _, None; float_as_int := λ _, None |}.

(** 0.5 and 0.75 as doubles. *)
Definition half : pyfloat := S754_finite false 4503599627370496 (-53).
Definition three_quarters : pyfloat := S754_finite false 6755399441055744 (-53).

Definition raw_tokens : list pyval :=
  [ PDict (<["token" := PStr " The"]> (<["pred" := PInt 0]> (<["prob" := PFloat half]> ∅)));
    PDict (<["token" := PStr " population"]> (<["pred" := PInt 1]>
           (<["prob" := PFloat three_quarters]> ∅))) ].

Definition raw_spans : list pyval :=
  [ PDict (<["start" := PInt 31]> (<["end" := PInt 71]>
          (<["text" := PStr " The population of France is 69 million."]>
          (<["confidence" := PFloat three_quarters]> ∅)))) ].

(** Two requests at once, one in each mode; the first has taken the lock and
    its [predict] is running. *)
Definition two_requests : list (mode * DetectionRequest) :=
  [(Tokens, france); (Spans, france)].

Definition first_is_in : list event := [Resume 0; Resume 0].

(** A server that answers every request 503 with a plain text, and one that
    answers 200 with a document that is not a response. *)
Definition unavailable : Response :=
  {| status_code := 503; text_of := Malformed "Service Unavailable" |}.

Definition always_unavailable (_ : unit) (_ : Request) : outcome Response * unit :=
  (Return unavailable, tt).

Definition wrong_document : Response :=
  {| status_code := 200; text_of := Json (PDict (<["detail" := PStr "hello"]> ∅)) |}.

Definition always_wrong_document (_ : unit) (_ : Request) : outcome Response * unit :=
  (Return wrong_document, tt).

Definition local_server : LettuceClientBase :=
  {| base_url := {| url_scheme := "http"; url_netloc := "127.0.0.1:8000";
                    url_path := ""; url_query := ""; url_fragment := "" |} |}.

Definition offline : net unit := {| remote := tt; sent := [] |}.

(** The two tables of [urllib.parse] as CPython 3.11 has them. *)
Definition cpython_uses_relative : list string :=
  [""; "ftp"; "http"; "gopher"; "nntp"; "imap"; "wais"; "file"; "https"; "shttp";
   "mms"; "prospero"; "rtsp"; "rtspu"; "sftp"; "svn"; "svn+ssh"; "ws"; "wss"].

Definition cpython_uses_netloc : list string :=
  [""; "ftp"; "http"; "gopher"; "nntp"; "telnet"; "imap"; "wais"; "file"; "mms";
   "https"; "shttp"; "snews"; "prospero"; "rtsp"; "rtspu"; "rsync"; "svn";
   "svn+ssh"; "sftp"; "nfs"; "git"; "git+ssh"; "ws"; "wss"].

(** Responses: one with finite scores, one whose score is NaN, an empty one. *)
Definition scored_tokens : TokenDetectionResponse :=
  {| token_predictions :=
       [ {| token := " The"; token_hallucination_score := half |};
         {| token := " population"; token_hallucination_score := three_quarters |} ] |}.

Definition scored_spans : SpanDetectionResponse :=
  {| span_predictions :=
       [ {| start := 31; span_end := 71;
            text := " The population of France is 69 million.";
            span_hallucination_score := three_quarters |} ] |}.

Definition nan_response : TokenDetectionResponse :=
  {| token_predictions := [ {| token := " The"; token_hallucination_score := S754_nan |} ] |}.

Definition finite_token (it : TokenDetectionItem) : bool :=
  is_finite (token_hallucination_score it).

Definition finite_span (it : SpanDetectionItem) : bool :=
  is_finite (span_hallucination_score it).

(** A detector without state that answers the two output formats. *)
Definition canned_detector (_ : unit) (c : predict_call) : outcome pyval * unit :=
  if String.eqb (call_output_format c) "tokens" then (Return (PList raw_tokens), tt)
  else (Return (PList raw_spans), tt).

(** A detector whose model fails. *)
Definition out_of_memory : pyexc := RuntimeError "CUDA out of memory".

Definition failing_detector (_ : unit) (c : predict_call) : outcome pyval * unit :=
  (Raise out_of_memory, tt).

Definition predict_call_of (request : DetectionRequest) (output_format : string)
    : predict_call :=
  {| call_context := contexts request;
     call_question := question request;
     call_answer := answer request;
     call_output_format := output_format |}.

(** An exception that is an [InferenceError] raised from [cause]. *)
Definition InferenceError_from (cause : pyexc) (e : pyexc) : Prop :=
  exc_class e = "InferenceError" ∧ exc_cause e = Some cause.

(** The failure of the detector surfaces from the token route as an
    [InferenceError] that holds it as its cause. *)
Definition surfaces_InferenceError {D : Type}
    (predict : D → predict_call → outcome pyval * D) (lax : LaxCoercion)
    (request : DetectionRequest) (w : world D) (cause : pyexc) : Prop :=
  ∃ e w', run_alone predict (token_route lax request) w = Some (Raise e, w') ∧
          InferenceError_from cause e.

(** How an item of the response stands to the raw entry it was made from. *)
Definition token_agrees (p : pyval) (it : TokenDetectionItem) : Prop :=
  getitem p "token" = Return (PStr (token it)) ∧
  getitem p "prob" = Return (PFloat (token_hallucination_score it)).

Definition span_agrees (p : pyval) (it : SpanDetectionItem) : Prop :=
  getitem p "start" = Return (PInt (start it)) ∧
  getitem p "end" = Return (PInt (span_end it)) ∧
  getitem p "text" = Return (PStr (text it)) ∧
  getitem p "confidence" = Return (PFloat (span_hallucination_score it)).

(** ** The application as a whole

    A request to [app]: the router picks the route, the detection routes run
    their handler on the body, everything else is answered by the framework.
    The documentation routes are the framework's own; what they answer is a
    parameter. *)

Definition json_detail (status : Z) (detail : string) : Response :=
  {| status_code := status; text_of := Json (PDict (<["detail" := PStr detail]> ∅)) |}.

Definition TemporaryRedirect : Response :=
  {| status_code := 307; text_of := Malformed "" |}.

(** [httpx] sends a request only to an [http] or [https] URL that names a
    host: in the netloc, what follows the user information, before the
    port. *)
Definition has_host (netloc : string) : bool :=
  match List.last (split "@"%char netloc) "" with
  | EmptyString => false
  | String c _ => negb (Ascii.eqb c ":"%char)
  end.

Definition sendable (u : URL) : bool :=
  (String.eqb (url_scheme u) "http" || String.eqb (url_scheme u) "https")
  && has_host (url_netloc u).

Section App.
Context {D : Type} (predict : D → predict_call → outcome pyval * D).
Context (lax : LaxCoercion) (docs : endpoint → Response).
(** The deployment: the scheme and netloc at which the application is
    served, and what [httpx] raises for a URL that does not lead there. *)
Context (served_at : string → string → bool) (unsendable : URL → pyexc).

Definition app (rq : Request) (w : world D) : option (Response * world D) :=
  match reaches rq with
  | Handle TokenDetection => post_token predict lax (Json (req_json rq)) w
  | Handle SpanDetection => post_spans predict lax (Json (req_json rq)) w
  | Handle e => Some (docs e, w)
  | MethodNotAllowed => Some (json_detail 405 "Method Not Allowed", w)
  | RedirectSlashes _ => Some (TemporaryRedirect, w)
  | NotFound => Some (json_detail 404 "Not Found", w)
  end.

(** The application as the network of a client: a request with a URL that
    cannot be sent, or that leads elsewhere, does not get to it, and a
    request that is never answered ends in the client's read timeout. *)
Definition app_transport (w : world D) (rq : Request) : outcome Response * world D :=
  if sendable (req_url rq)
     && served_at (url_scheme (req_url rq)) (url_netloc (req_url rq)) then
    match app rq w with
    | Some (response, w') => (Return response, w')
    | None => (Raise (Exc "ReadTimeout" "" None), w)
    end
  else (Raise (unsendable (req_url rq)), w).
End App.

(** ** The event loop with the detector in it

    The same steps as [step], with the shared detector: when the worker
    thread of task [i] is done, its answer is what [predict] gives on the
    detector as it is then, and the detector is left as [predict] leaves it.
    [order] records the tasks in the order in which their [predict] ended. *)

Record shared_loop (D A : Type) := {
  the_loop : loop A;
  the_detector : D;
  order : list nat }.
Arguments the_loop {D A} s.
Arguments the_detector {D A} s.
Arguments order {D A} s.

Section SharedLoop.
Context {D : Type} (predict : D → predict_call → outcome pyval * D).

(** The scheduler lets task [i] go on. *)
Definition advance {A} (s : shared_loop D A) (i : nat) : option (shared_loop D A) :=
  match tasks (the_loop s) !! i with
  | Some (InThread c _) =>
      let '(r, d) := predict (the_detector s) c in
      l ← step (the_loop s) (ThreadDone i r);
      Some {| the_loop := l; the_detector := d; order := order s ++ [i] |}
  | _ =>
      l ← step (the_loop s) (Resume i);
      Some {| the_loop := l; the_detector := the_detector s; order := order s |}
  end.

Fixpoint schedule {A} (s : shared_loop D A) (sched : list nat) : option (shared_loop D A) :=
  match sched with
  | [] => Some s
  | i :: sched' => s' ← advance s i; schedule s' sched'
  end.

(** The requests served one after the other, in the given order, each alone. *)
Fixpoint serve_in_order (reqs : list (mode * DetectionRequest)) (turns : list nat)
    (w : world D) : option (list (nat * outcome pyval) * world D) :=
  match turns with
  | [] => Some ([], w)
  | i :: turns' =>
      '(m, request) ← reqs !! i;
      '(r, w') ← run_alone predict (handler m request) w;
      '(rs, w'') ← serve_in_order reqs turns' w';
      Some ((i, r) :: rs, w'')
  end.
End SharedLoop.

Definition accept_with {D} (d : D) (reqs : list (mode * DetectionRequest))
    : shared_loop D pyval :=
  {| the_loop := accept reqs; the_detector := d; order := [] |}.

Definition output_format_of (m : mode) : string :=
  match m with
  | Tokens => "tokens"
  | Spans => "spans"
  end.

(** What a handler makes of the answer of the detector, by mode. *)
Definition convert_entry (m : mode) : pyval → outcome pyval :=
  match m with
  | Tokens => convert_token
  | Spans => convert_span
  end.

Definition is_raw_entry (m : mode) : pyval → bool :=
  match m with
  | Tokens => is_raw_token
  | Spans => is_raw_span
  end.

Definition shape (m : mode) (o : outcome pyval) : outcome pyval :=
  preds ← o;
  ps ← iter preds;
  preds_converted ← comprehension (convert_entry m) ps;
  mret (PDict (<["predictions" := PList preds_converted]> ∅)).

(** Where a task of the event loop stands in its handler: before the answer
    of [predict] (arrived, holding the lock, in the thread pool), or after
    it, with what the handler made of the answer. *)
Definition before_answer (m : mode) (request : DetectionRequest) (t : task pyval) : Prop :=
  t = Ready (handler m request) ∨
  ∃ K, (∀ o, K o = LockRelease (Finished (shape m o))) ∧
       (t = Ready (RunInThreadpool (predict_call_of request (output_format_of m)) K) ∨
        t = InThread (predict_call_of request (output_format_of m)) K).

Definition answer_of {A} (t : task A) : option (outcome A) :=
  match t with
  | Ready (LockRelease (Finished o)) | Ready (Finished o) => Some o
  | _ => None
  end.

Definition staged (reqs : list (mode * DetectionRequest)) (l : loop pyval) : Prop :=
  ∀ i t, tasks l !! i = Some t →
    ∃ m request, reqs !! i = Some (m, request) ∧
      (before_answer m request t ∨ ∃ o, answer_of t = Some (shape m o)).

(** The state of the loop with the detector is the state after serving, one
    by one and in the order in which they were answered, the requests that
    have their answer. *)
Definition serialized {D : Type} (predict : D → predict_call → outcome pyval * D)
    (reqs : list (mode * DetectionRequest)) (d0 : D) (s : shared_loop D pyval) : Prop :=
  ∃ results w,
    serve_in_order predict reqs (order s) (startup d0) = Some (results, w) ∧
    detector w = the_detector s ∧ detector_lock w = false ∧
    length (calls w) = length (order s) ∧
    NoDup (order s) ∧
    ∀ i t, tasks (the_loop s) !! i = Some t →
      ∀ o, answer_of t = Some o ↔ (i, o) ∈ results.

(** ** Raw entries that lack a key *)

(** The first of [keys] that the dict does not have. *)
Fixpoint missing_key (keys : list string) (d : gmap string pyval) : option string :=
  match keys with
  | [] => None
  | k :: keys' => match d !! k with
                  | None => Some k
                  | Some _ => missing_key keys' d
                  end
  end.

Definition keys_read (m : mode) : list string :=
  match m with
  | Tokens => ["token"; "prob"]
  | Spans => ["start"; "end"; "text"; "confidence"]
  end.

Definition has_keys (m : mode) (p : pyval) : bool :=
  match p with
  | PDict d => match missing_key (keys_read m) d with
               | None => true
               | Some _ => false
               end
  | _ => false
  end.

Definition not_iterable (v : pyval) : bool :=
  match v with
  | PNone | PBool _ | PInt _ | PFloat _ => true
  | _ => false
  end.

Definition is_str (v : pyval) : bool :=
  match v with
  | PStr _ => true
  | _ => false
  end.

(** A base URL as a user gives it: scheme and host, maybe a path prefix, a
    query and a fragment. *)
Definition prefixed_server : LettuceClientBase :=
  {| base_url := {| url_scheme := "https"; url_netloc := "example.org";
                    url_path := "/api/v2/"; url_query := "key=1";
                    url_fragment := "top" |} |}.

Definition no_docs (e : endpoint) : Response := json_detail 200 "docs".

(** Detectors whose answer does not fit: an entry without its probability,
    no list at all, a token that is a number. *)
Definition entry_without_prob : gmap string pyval := <["token" := PStr " France"]> ∅.

Definition sloppy_detector (_ : unit) (c : predict_call) : outcome pyval * unit :=
  (Return (PList (raw_tokens ++ [PDict entry_without_prob])), tt).

Definition silent_detector (_ : unit) (c : predict_call) : outcome pyval * unit :=
  (Return PNone, tt).

Definition entry_with_number : gmap string pyval :=
  <["token" := PInt 7]> (<["prob" := PFloat half]> ∅).

Definition numbering_detector (_ : unit) (c : predict_call) : outcome pyval * unit :=
  (Return (PList (raw_tokens ++ [PDict entry_with_number])), tt).

Definition france_body : text_body := Json (dict_DetectionRequest france).

(** A detector that counts its calls and reports nothing, and a schedule
    that lets the second of two requests go first. *)
Definition counting_detector (n : nat) (c : predict_call) : outcome pyval * nat :=
  (Return (PList []), S n).

Definition second_goes_first : list nat := [1; 1; 1; 1; 0; 0; 0; 0].

(** A server that answers every request with the scored tokens, and a host
    that cannot be reached. *)
Definition always_scored (_ : unit) (_ : Request) : outcome Response * unit :=
  (Return {| status_code := 200; text_of := dump_TokenDetectionResponse scored_tokens |}, tt).

Definition ConnectError : pyexc := Exc "ConnectError" "All connection attempts failed" None.

Definition UnsupportedProtocol (_ : URL) : pyexc :=
  Exc "UnsupportedProtocol" "Request URL is missing an 'http://' or 'https://' protocol." None.

Definition no_base : LettuceClientBase := {| base_url := url_of_path "" |}.

Definition fresh_server : net (world unit) := {| remote := startup tt; sent := [] |}.

Definition on_port_8000 (scheme netloc : string) : bool :=
  String.eqb scheme "http" && String.eqb netloc "127.0.0.1:8000".

Definition unreachable_host (_ : unit) (_ : Request) : outcome Response * unit :=
  (Raise ConnectError, tt).

(** * Properties *)

(** ** The model at work *)

Example token_route_on_france :
  run_alone canned_detector (token_route no_coercion france) (startup tt) =
  Some (Return scored_tokens,
        {| detector := tt; detector_lock := false;
           calls := [predict_call_of france "tokens"] |}).
Proof. reflexivity. Qed.

Example spans_route_on_france :
  run_alone canned_detector (spans_route no_coercion france) (startup tt) =
  Some (Return scored_spans,
        {| detector := tt; detector_lock := false;
           calls := [predict_call_of france "spans"] |}).
Proof. reflexivity. Qed.

Example missing_question_is_422 :
  post_token canned_detector no_coercion
    (Json (PDict (<["contexts" := PList []]> (<["answer" := PStr "Paris."]> ∅))))
    (startup tt)
  = Some (UnprocessableEntity, startup tt).
Proof. reflexivity. Qed.

Example slice_of_answer :
  py_slice (answer france) 31 71 = " The population of France is 69 million.".
Proof. reflexivity. Qed.

Example slice_clamps : py_slice "Paris" (-3) 100 = "ris".
Proof. reflexivity. Qed.

Example urljoin_local_server :
  urljoin cpython_uses_relative cpython_uses_netloc (base_url local_server)
    (url_of_path _TOKEN_ENDPOINT)
  = {| url_scheme := "http"; url_netloc := "127.0.0.1:8000";
       url_path := "/v1/lettucedetect/token"; url_query := ""; url_fragment := "" |}.
Proof. reflexivity. Qed.

Example urljoin_resolves_dots :
  url_path (urljoin cpython_uses_relative cpython_uses_netloc
              {| url_scheme := "http"; url_netloc := "h"; url_path := "/a/b/c";
                 url_query := ""; url_fragment := "" |}
              (url_of_path "../x/./y//z")) = "/a/x/y/z".
Proof. reflexivity. Qed.

Example route_of_the_server : dispatch app_routes "POST" "/lettucedetect/token"
                              = Handle TokenDetection.
Proof. reflexivity. Qed.

Example route_wrong_method : dispatch app_routes "GET" "/lettucedetect/spans"
                             = MethodNotAllowed.
Proof. reflexivity. Qed.

Example route_trailing_slash : dispatch app_routes "POST" "/lettucedetect/spans/"
                               = RedirectSlashes "/lettucedetect/spans".
Proof. reflexivity. Qed.

Example argparse_abbreviation :
  _argparse ["--meth=transformer"; "--mo"; "x"]
  = Parsed {| model := "x"; method := "transformer" |}.
Proof. reflexivity. Qed.

Example argparse_ambiguous : _argparse ["--m"; "x"] = SystemExit 2.
Proof. reflexivity. Qed.

Example argparse_help : _argparse ["-h"; "--method"; "foo"] = SystemExit 0.
Proof. reflexivity. Qed.

Example argparse_positional : _argparse ["transformer"] = SystemExit 2.
Proof. reflexivity. Qed.

Example argparse_separator_before_value :
  _argparse ["--method"; "--"; "transformer"] = SystemExit 2.
Proof. reflexivity. Qed.

Example argparse_separator_at_the_end : _argparse ["--model"; "m"; "--"] = SystemExit 2.
Proof. reflexivity. Qed.

Example argparse_help_twice : _argparse ["-hh"] = SystemExit 0.
Proof. reflexivity. Qed.

Example argparse_help_after_argument : _argparse ["foo"; "-h"] = SystemExit 0.
Proof. reflexivity. Qed.

Example route_with_newline :
  dispatch app_routes "POST" ("/lettucedetect/token" ++ newline) = Handle TokenDetection.
Proof. reflexivity. Qed.

Example urljoin_keeps_empty_segments :
  url_path (urljoin cpython_uses_relative cpython_uses_netloc (base_url local_server)
              (url_of_path "/x//y")) = "/x//y".
Proof. reflexivity. Qed.

Example bare_path_is_not_sent :
  (LettuceClient_detect_token
     (app_transport canned_detector no_coercion no_docs on_port_8000 UnsupportedProtocol)
     no_coercion cpython_uses_relative cpython_uses_netloc no_base
     (contexts france) (question france) (answer france) fresh_server).1
  = Raise (UnsupportedProtocol (url_of_path _TOKEN_ENDPOINT)).
Proof. reflexivity. Qed.

(** ** Running a coroutine alone *)

Section AloneFacts.
Context {D : Type} (predict : D → predict_call → outcome pyval * D).

Lemma run_alone_await {A B} (c : coro A) (f : A → coro B) (w : world D) :
  run_alone predict (await c f) w =
  match run_alone predict c w with
  | None => None
  | Some (Return a, w') => run_alone predict (f a) w'
  | Some (Raise e, w') => Some (Raise e, w')
  end.
Proof.
  revert w. induction c as [[a|e]|k IH|k IH|c k IH]; intros w; simpl.
  - reflexivity.
  - reflexivity.
  - destruct (detector_lock w); [reflexivity | apply IH].
  - destruct (detector_lock w); [apply IH | reflexivity].
  - destruct (predict (detector w) c) as [r d]. apply IH.
Qed.

(** One pass of a request: the lock is taken, [predict] is called once
    with the fields of the request, the lock is given back, and what
    [predict] returned or raised comes out as it is. *)
Lemma run_detector_safe_alone request output_format (w : world D) r d :
  detector_lock w = false →
  predict (detector w) (predict_call_of request output_format) = (r, d) →
  run_alone predict (run_detector_safe request output_format) w =
  Some (r, {| detector := d; detector_lock := false;
              calls := calls w ++ [predict_call_of request output_format] |}).
Proof.
  intros Hfree Hp. unfold run_detector_safe, mbind, coro_bind, mret, coro_ret.
  rewrite run_alone_await. simpl. rewrite Hfree. simpl.
  unfold predict_call_of in Hp. rewrite Hp. simpl.
  destruct r; reflexivity.
Qed.
End AloneFacts.

(** ** Shape conversion *)

Lemma comprehension_Forall2 {A B} (f : A → outcome B) (R : A → B → Prop) (l : list A) :
  Forall (λ p, ∃ y, f p = Return y ∧ R p y) l →
  ∃ ys, comprehension f l = Return ys ∧ Forall2 R l ys.
Proof.
  induction 1 as [|p l (y & Hy & HR) _ (ys & Hys & HF)]; simpl.
  - exists []. split; [reflexivity | constructor].
  - exists (y :: ys). rewrite Hy. simpl. rewrite Hys. simpl.
    split; [reflexivity | by constructor].
Qed.

Lemma comprehension_compose {A B C} (f : A → outcome B) (g : B → outcome C)
    (R : A → C → Prop) (l : list A) :
  Forall (λ p, ∃ v y, f p = Return v ∧ g v = Return y ∧ R p y) l →
  ∃ vs ys, comprehension f l = Return vs ∧ comprehension g vs = Return ys ∧
           Forall2 R l ys.
Proof.
  induction 1 as [|p l (v & y & Hv & Hy & HR) _ (vs & ys & Hvs & Hys & HF)]; simpl.
  - exists [], []. repeat split; constructor.
  - exists (v :: vs), (y :: ys). rewrite Hv. simpl. rewrite Hvs. simpl.
    rewrite Hy. simpl. rewrite Hys. simpl. repeat split; by constructor.
Qed.

Lemma convert_token_typed lax p :
  is_raw_token p = true →
  ∃ v it, convert_token p = Return v ∧
          validate_TokenDetectionItem lax v = Return it ∧ token_agrees p it.
Proof.
  destruct p as [| | | | | |d]; simpl; try discriminate.
  destruct (d !! "token") as [[| | | |t| |]|] eqn:Ht; try discriminate.
  destruct (d !! "prob") as [[| | |h| | |]|] eqn:Hh; try discriminate.
  intros _. eexists _, {| token := t; token_hallucination_score := h |}.
  unfold convert_token, token_agrees. simpl. rewrite Ht, Hh. simpl.
  repeat split.
Qed.

Lemma convert_span_typed lax p :
  is_raw_span p = true →
  ∃ v it, convert_span p = Return v ∧
          validate_SpanDetectionItem lax v = Return it ∧ span_agrees p it.
Proof.
  destruct p as [| | | | | |d]; simpl; try discriminate.
  destruct (d !! "start") as [[| |s| | | |]|] eqn:Hs; try discriminate.
  destruct (d !! "end") as [[| |e| | | |]|] eqn:He; try discriminate.
  destruct (d !! "text") as [[| | | |t| |]|] eqn:Ht; try discriminate.
  destruct (d !! "confidence") as [[| | |h| | |]|] eqn:Hh; try discriminate.
  intros _. eexists _, {| start := s; span_end := e; text := t;
                          span_hallucination_score := h |}.
  unfold convert_span, span_agrees. simpl. rewrite Hs, He, Ht, Hh. simpl.
  repeat split.
Qed.

Lemma detector_span_is_raw answer p :
  detector_span answer p = true → is_raw_span p = true.
Proof.
  destruct p as [| | | | | |d]; simpl; try discriminate.
  destruct (d !! "start") as [[| |s| | | |]|]; try discriminate.
  destruct (d !! "end") as [[| |e| | | |]|]; try discriminate.
  destruct (d !! "text") as [[| | | |t| |]|]; try discriminate.
  destruct (d !! "confidence") as [[| | |h| | |]|]; try discriminate.
  reflexivity.
Qed.

Lemma span_within_ok answer (it : SpanDetectionItem) :
  span_within answer (start it) (span_end it) (text it) = true →
  span_item_ok answer it.
Proof.
  unfold span_within, span_item_ok. intros H.
  apply andb_prop in H as [H Ht]. apply andb_prop in H as [H He].
  apply andb_prop in H as [H0 Hs].
  apply Z.leb_le in H0, Hs, He. apply String.eqb_eq in Ht. auto.
Qed.

Section Gateway.
Context {D : Type} (predict : D → predict_call → outcome pyval * D).
Context (lax : LaxCoercion).

Lemma token_route_alone request (w : world D) raw d :
  detector_lock w = false →
  predict (detector w) (predict_call_of request "tokens") = (Return (PList raw), d) →
  forallb is_raw_token raw = true →
  ∃ items,
    run_alone predict (token_route lax request) w =
      Some (Return {| token_predictions := items |},
            {| detector := d; detector_lock := false;
               calls := calls w ++ [predict_call_of request "tokens"] |}) ∧
    Forall2 token_agrees raw items.
Proof.
  intros Hfree Hp Hraw.
  destruct (comprehension_compose convert_token (validate_TokenDetectionItem lax)
              token_agrees raw) as (vs & items & Hvs & Hitems & HF).
  { apply Forall_forall. intros p Hin. apply convert_token_typed.
    rewrite forallb_forall in Hraw. apply Hraw. by apply list_elem_of_In. }
  exists items. split; [|exact HF].
  unfold token_route, run_token_detection, mbind, coro_bind.
  rewrite !run_alone_await.
  rewrite (run_detector_safe_alone predict request "tokens" w _ d Hfree Hp).
  simpl. rewrite Hvs. simpl.
  unfold response_model, validate_TokenDetectionResponse, field.
  rewrite lookup_insert_eq. simpl. rewrite Hitems. reflexivity.
Qed.

Lemma spans_route_alone request (w : world D) raw d :
  detector_lock w = false →
  predict (detector w) (predict_call_of request "spans") = (Return (PList raw), d) →
  forallb is_raw_span raw = true →
  ∃ items,
    run_alone predict (spans_route lax request) w =
      Some (Return {| span_predictions := items |},
            {| detector := d; detector_lock := false;
               calls := calls w ++ [predict_call_of request "spans"] |}) ∧
    Forall2 span_agrees raw items.
Proof.
  intros Hfree Hp Hraw.
  destruct (comprehension_compose convert_span (validate_SpanDetectionItem lax)
              span_agrees raw) as (vs & items & Hvs & Hitems & HF).
  { apply Forall_forall. intros p Hin. apply convert_span_typed.
    rewrite forallb_forall in Hraw. apply Hraw. by apply list_elem_of_In. }
  exists items. split; [|exact HF].
  unfold spans_route, run_span_detection, mbind, coro_bind.
  rewrite !run_alone_await.
  rewrite (run_detector_safe_alone predict request "spans" w _ d Hfree Hp).
  simpl. rewrite Hvs. simpl.
  unfold response_model, validate_SpanDetectionResponse, field.
  rewrite lookup_insert_eq. simpl. rewrite Hitems. reflexivity.
Qed.
End Gateway.

Lemma detector_span_agrees answer p it :
  detector_span answer p = true → span_agrees p it → span_item_ok answer it.
Proof.
  destruct p as [| | | | | |d]; simpl; try discriminate.
  unfold span_agrees. simpl.
  destruct (d !! "start") as [[| |s| | | |]|]; try discriminate.
  destruct (d !! "end") as [[| |e| | | |]|]; try discriminate.
  destruct (d !! "text") as [[| | | |t| |]|]; try discriminate.
  destruct (d !! "confidence") as [[| | |h| | |]|]; try discriminate.
  intros Hw (Hs & He & Ht & _).
  injection Hs as ->. injection He as ->. injection Ht as ->.
  by apply span_within_ok.
Qed.

(** C2.  Token mode: when the detector answers with a list of token entries
    (a text under ["token"], a probability under ["prob"]), the request is
    answered, and the response has exactly one item per raw entry, in the
    same order: item [i] carries the token text and the probability of raw
    entry [i], and there is no item without its raw entry. *)
Theorem token_detection_maps_each_raw_prediction {D : Type}
    (predict : D → predict_call → outcome pyval * D) (lax : LaxCoercion)
    (request : DetectionRequest) (w : world D) (raw : list pyval) (d : D) :
  detector_lock w = false →
  predict (detector w) (predict_call_of request "tokens") = (Return (PList raw), d) →
  forallb is_raw_token raw = true →
  ∃ response w',
    run_alone predict (token_route lax request) w = Some (Return response, w') ∧
    length (token_predictions response) = length raw ∧
    (∀ i p, raw !! i = Some p →
       ∃ it, token_predictions response !! i = Some it ∧ token_agrees p it) ∧
    (∀ i it, token_predictions response !! i = Some it →
       ∃ p, raw !! i = Some p ∧ token_agrees p it).
Proof.
  intros Hfree Hp Hraw.
  destruct (token_route_alone predict lax request w raw d Hfree Hp Hraw)
    as (items & Hrun & HF).
  eexists _, _. split; [exact Hrun|]. simpl. split; [|split].
  - symmetry. eapply Forall2_length, HF.
  - intros i p Hi. destruct (Forall2_lookup_l _ _ _ _ _ HF Hi) as (it & Hit & Hag).
    by exists it.
  - intros i it Hi. destruct (Forall2_lookup_r _ _ _ _ _ HF Hi) as (p & Hpi & Hag).
    by exists p.
Qed.

Lemma token_detection_on_france :
  ∃ response w',
    run_alone canned_detector (token_route no_coercion france) (startup tt)
      = Some (Return response, w') ∧
    length (token_predictions response) = length raw_tokens ∧
    (∀ i p, raw_tokens !! i = Some p →
       ∃ it, token_predictions response !! i = Some it ∧ token_agrees p it) ∧
    (∀ i it, token_predictions response !! i = Some it →
       ∃ p, raw_tokens !! i = Some p ∧ token_agrees p it).
Proof.
  apply (token_detection_maps_each_raw_prediction canned_detector no_coercion france
           (startup tt) raw_tokens tt); reflexivity.
Defined.

(** C3.  Span mode: when the detector answers with a list of span entries
    (integers under ["start"] and ["end"], a text under ["text"], a number
    under ["confidence"]), the request is answered, and the response has
    exactly one item per raw span, in the order of the raw list: item [i]
    carries start, end and text of raw span [i] and its confidence as the
    score, and there is no item without its raw span. *)
Theorem span_detection_maps_each_raw_span {D : Type}
    (predict : D → predict_call → outcome pyval * D) (lax : LaxCoercion)
    (request : DetectionRequest) (w : world D) (raw : list pyval) (d : D) :
  detector_lock w = false →
  predict (detector w) (predict_call_of request "spans") = (Return (PList raw), d) →
  forallb is_raw_span raw = true →
  ∃ response w',
    run_alone predict (spans_route lax request) w = Some (Return response, w') ∧
    length (span_predictions response) = length raw ∧
    (∀ i p, raw !! i = Some p →
       ∃ it, span_predictions response !! i = Some it ∧ span_agrees p it) ∧
    (∀ i it, span_predictions response !! i = Some it →
       ∃ p, raw !! i = Some p ∧ span_agrees p it).
Proof.
  intros Hfree Hp Hraw.
  destruct (spans_route_alone predict lax request w raw d Hfree Hp Hraw)
    as (items & Hrun & HF).
  eexists _, _. split; [exact Hrun|]. simpl. split; [|split].
  - symmetry. eapply Forall2_length, HF.
  - intros i p Hi. destruct (Forall2_lookup_l _ _ _ _ _ HF Hi) as (it & Hit & Hag).
    by exists it.
  - intros i it Hi. destruct (Forall2_lookup_r _ _ _ _ _ HF Hi) as (p & Hpi & Hag).
    by exists p.
Qed.

Lemma span_detection_on_france :
  ∃ response w',
    run_alone canned_detector (spans_route no_coercion france) (startup tt)
      = Some (Return response, w') ∧
    length (span_predictions response) = length raw_spans ∧
    (∀ i p, raw_spans !! i = Some p →
       ∃ it, span_predictions response !! i = Some it ∧ span_agrees p it) ∧
    (∀ i it, span_predictions response !! i = Some it →
       ∃ p, raw_spans !! i = Some p ∧ span_agrees p it).
Proof.
  apply (span_detection_maps_each_raw_span canned_detector no_coercion france
           (startup tt) raw_spans tt); reflexivity.
Defined.

(** C4.  Span mode, with the detector as the spec has it (each span it
    reports lies within the answer and quotes it): the request is answered
    and every item of the response has [0 <= start <= end <= len(answer)]
    and [text == answer[start:end]]. *)
Theorem span_items_lie_within_answer {D : Type}
    (predict : D → predict_call → outcome pyval * D) (lax : LaxCoercion)
    (request : DetectionRequest) (w : world D) (raw : list pyval) (d : D) :
  detector_lock w = false →
  predict (detector w) (predict_call_of request "spans") = (Return (PList raw), d) →
  forallb (detector_span (answer request)) raw = true →
  ∃ response w',
    run_alone predict (spans_route lax request) w = Some (Return response, w') ∧
    Forall (span_item_ok (answer request)) (span_predictions response).
Proof.
  intros Hfree Hp Hraw.
  assert (Hshape : forallb is_raw_span raw = true).
  { apply forallb_forall. intros p Hin. rewrite forallb_forall in Hraw.
    eapply detector_span_is_raw, Hraw, Hin. }
  destruct (spans_route_alone predict lax request w raw d Hfree Hp Hshape)
    as (items & Hrun & HF).
  eexists _, _. split; [exact Hrun|]. simpl.
  apply Forall_lookup. intros i it Hi.
  destruct (Forall2_lookup_r _ _ _ _ _ HF Hi) as (p & Hpi & Hag).
  eapply detector_span_agrees; [|exact Hag].
  rewrite forallb_forall in Hraw. apply Hraw.
  apply list_elem_of_In. eapply list_elem_of_lookup_2, Hpi.
Qed.

Lemma span_items_of_france_lie_within :
  ∃ response w',
    run_alone canned_detector (spans_route no_coercion france) (startup tt)
      = Some (Return response, w') ∧
    Forall (span_item_ok (answer france)) (span_predictions response).
Proof.
  apply (span_items_lie_within_answer canned_detector no_coercion france
           (startup tt) raw_spans tt); reflexivity.
Defined.


(** ** Failure of the detector *)

Section Failure.
Context {D : Type} (predict : D → predict_call → outcome pyval * D).
Context (lax : LaxCoercion).

Lemma token_route_raises request (w : world D) e d :
  detector_lock w = false →
  predict (detector w) (predict_call_of request "tokens") = (Raise e, d) →
  run_alone predict (token_route lax request) w =
  Some (Raise e, {| detector := d; detector_lock := false;
                    calls := calls w ++ [predict_call_of request "tokens"] |}).
Proof.
  intros Hfree Hp. unfold token_route, run_token_detection, mbind, coro_bind.
  rewrite !run_alone_await.
  by rewrite (run_detector_safe_alone predict request "tokens" w _ d Hfree Hp).
Qed.

Lemma spans_route_raises request (w : world D) e d :
  detector_lock w = false →
  predict (detector w) (predict_call_of request "spans") = (Raise e, d) →
  run_alone predict (spans_route lax request) w =
  Some (Raise e, {| detector := d; detector_lock := false;
                    calls := calls w ++ [predict_call_of request "spans"] |}).
Proof.
  intros Hfree Hp. unfold spans_route, run_span_detection, mbind, coro_bind.
  rewrite !run_alone_await.
  by rewrite (run_detector_safe_alone predict request "spans" w _ d Hfree Hp).
Qed.
End Failure.

(** C5, as stated, fails: when the model raises [RuntimeError], what leaves
    the token route is that [RuntimeError], not an [InferenceError] made
    from it. *)
Lemma inference_failure_is_not_wrapped :
  ¬ surfaces_InferenceError failing_detector no_coercion france (startup tt)
      out_of_memory.
Proof.
  intros (e & w' & Hrun & Hcls & _).
  rewrite (token_route_raises failing_detector no_coercion france (startup tt)
             out_of_memory tt eq_refl eq_refl) in Hrun.
  injection Hrun as <- _. discriminate Hcls.
Qed.

(** C5, amended.  When [detector.predict] raises, in either mode, the
    exception leaves the route as it is; [predict] has been called once, the
    lock is free again, no predictions are returned, and the transport
    answers 500 with its fixed body. *)
Theorem inference_failure_propagates_unchanged {D : Type}
    (predict : D → predict_call → outcome pyval * D) (lax : LaxCoercion)
    (request : DetectionRequest) (body : text_body) (w : world D)
    (e : pyexc) (d : D) :
  detector_lock w = false →
  model_validate_json validate_DetectionRequest body = Return request →
  (predict (detector w) (predict_call_of request "tokens") = (Raise e, d) →
   let w' := {| detector := d; detector_lock := false;
                calls := calls w ++ [predict_call_of request "tokens"] |} in
   run_alone predict (token_route lax request) w = Some (Raise e, w') ∧
   post_token predict lax body w = Some (InternalServerError, w')) ∧
  (predict (detector w) (predict_call_of request "spans") = (Raise e, d) →
   let w' := {| detector := d; detector_lock := false;
                calls := calls w ++ [predict_call_of request "spans"] |} in
   run_alone predict (spans_route lax request) w = Some (Raise e, w') ∧
   post_spans predict lax body w = Some (InternalServerError, w')).
Proof.
  intros Hfree Hbody. split; intros Hp w'.
  - pose proof (token_route_raises predict lax request w e d Hfree Hp) as Hrun.
    split; [exact Hrun|]. unfold post_token, serve. by rewrite Hbody, Hrun.
  - pose proof (spans_route_raises predict lax request w e d Hfree Hp) as Hrun.
    split; [exact Hrun|]. unfold post_spans, serve. by rewrite Hbody, Hrun.
Qed.

Lemma out_of_memory_is_answered_500 :
  (let w' := {| detector := tt; detector_lock := false;
                calls := [predict_call_of france "tokens"] |} in
   run_alone failing_detector (token_route no_coercion france) (startup tt)
     = Some (Raise out_of_memory, w') ∧
   post_token failing_detector no_coercion (Json (dict_DetectionRequest france))
     (startup tt) = Some (InternalServerError, w')) ∧
  (let w' := {| detector := tt; detector_lock := false;
                calls := [predict_call_of france "spans"] |} in
   run_alone failing_detector (spans_route no_coercion france) (startup tt)
     = Some (Raise out_of_memory, w') ∧
   post_spans failing_detector no_coercion (Json (dict_DetectionRequest france))
     (startup tt) = Some (InternalServerError, w')).
Proof.
  destruct (inference_failure_propagates_unchanged failing_detector no_coercion
              france (Json (dict_DetectionRequest france)) (startup tt)
              out_of_memory tt eq_refl eq_refl) as [Ht Hs].
  split; [apply Ht | apply Hs]; reflexivity.
Defined.

(** ** The lock under concurrent requests *)

Lemma follows_await {A B} ph (c : coro A) (f : A → coro B) :
  follows ph c → (∀ a, follows Left (f a)) → follows ph (await c f).
Proof.
  intros Hc Hf. revert ph Hc.
  induction c as [[a|e]|k IH|k IH|c k IH]; simpl; intros ph Hc.
  - subst ph. apply Hf.
  - exact Hc.
  - destruct Hc as [-> Hk]. split; [reflexivity | by apply IH].
  - destruct Hc as [-> Hk]. split; [reflexivity | by apply IH].
  - destruct Hc as [-> Hk]. split; [reflexivity | intros r; by apply IH].
Qed.

Lemma run_detector_safe_follows request output_format :
  follows Arriving (run_detector_safe request output_format).
Proof.
  unfold run_detector_safe, mbind, coro_bind. apply follows_await.
  - simpl. split; [reflexivity|]. split; [reflexivity|]. intros r. simpl. by split.
  - intros a. reflexivity.
Qed.

Lemma handler_follows m request : follows Arriving (handler m request).
Proof.
  destruct m; unfold handler, run_token_detection, run_span_detection, mbind, coro_bind;
    (apply follows_await; [apply run_detector_safe_follows | intros a; reflexivity]).
Qed.

Lemma accept_exclusive reqs : exclusive (accept reqs).
Proof.
  unfold exclusive, accept. simpl. intros i t Hi.
  apply list_lookup_fmap_Some in Hi as ([m r] & -> & Hr).
  simpl. left. apply handler_follows.
Qed.

(** A task that is inside is not idle: the phases exclude each other. *)
Lemma follows_unique {A} (c : coro A) ph ph' : follows ph c → follows ph' c → ph = ph'.
Proof. destruct c; simpl; intros H H'; try destruct H, H'; congruence. Qed.

Lemma idle_not_holding {A} (t : task A) : idle t → holds_lock t → False.
Proof.
  destruct t as [c|c k]; simpl; [|tauto].
  intros [H|H] [H'|H']; pose proof (follows_unique _ _ _ H H'); discriminate.
Qed.

Lemma step_exclusive {A} (s s' : loop A) e :
  exclusive s → step s e = Some s' → exclusive s'.
Proof.
  unfold exclusive. intros Hex Hstep. destruct e as [i|i r]; simpl in Hstep.
  - destruct (tasks s !! i) as [[[r|k|k|c k]|c k]|] eqn:Hi; try discriminate.
    + (* the lock is asked for *)
      destruct (lock s) eqn:Hl; [discriminate|]. injection Hstep as <-. simpl.
      pose proof (Hex i _ Hi) as Hidle. simpl in Hidle.
      exists i, (Ready k). split; [|split].
      * apply list_lookup_insert_eq. eapply lookup_lt_Some, Hi.
      * left. destruct Hidle as [[_ H]|[H _]]; [exact H | discriminate].
      * intros i' t' Hne Hi'. rewrite list_lookup_insert_ne in Hi' by congruence.
        eapply Hex, Hi'.
    + (* the lock is given back *)
      destruct (lock s) eqn:Hl.
      * injection Hstep as <-. simpl.
        destruct Hex as (j & t & Hj & Hhold & Hothers).
        destruct (decide (i = j)) as [->|Hne].
        -- rewrite Hi in Hj. injection Hj as <-. simpl in Hhold.
           intros i' t' Hi'. destruct (decide (i' = j)) as [->|Hne'].
           ++ rewrite list_lookup_insert_eq in Hi' by (eapply lookup_lt_Some, Hi).
              injection Hi' as <-. simpl. right.
              destruct Hhold as [[H _]|[_ H]]; [discriminate | exact H].
           ++ rewrite list_lookup_insert_ne in Hi' by congruence.
              eapply Hothers, Hi'. exact Hne'.
        -- pose proof (Hothers i _ Hne Hi) as Hidle. simpl in Hidle.
           destruct Hidle as [[H _]|[H _]]; discriminate.
      * pose proof (Hex i _ Hi) as Hidle. simpl in Hidle.
        destruct Hidle as [[H _]|[H _]]; discriminate.
    + (* predict goes to the thread pool *)
      injection Hstep as <-. simpl. destruct (lock s) eqn:Hl.
      * destruct Hex as (j & t & Hj & Hhold & Hothers).
        destruct (decide (i = j)) as [->|Hne].
        -- rewrite Hi in Hj. injection Hj as <-. simpl in Hhold.
           exists j, (InThread c k). split; [|split].
           ++ apply list_lookup_insert_eq. eapply lookup_lt_Some, Hi.
           ++ simpl. destruct Hhold as [[_ H]|[H _]]; [exact H | discriminate].
           ++ intros i' t' Hne' Hi'. rewrite list_lookup_insert_ne in Hi' by congruence.
              eapply Hothers, Hi'. exact Hne'.
        -- pose proof (Hothers i _ Hne Hi) as Hidle. simpl in Hidle.
           destruct Hidle as [[H _]|[H _]]; discriminate.
      * pose proof (Hex i _ Hi) as Hidle. simpl in Hidle.
        destruct Hidle as [[H _]|[H _]]; discriminate.
  - destruct (tasks s !! i) as [[c|c k]|] eqn:Hi; try discriminate.
    injection Hstep as <-. simpl. destruct (lock s) eqn:Hl.
    + destruct Hex as (j & t & Hj & Hhold & Hothers).
      destruct (decide (i = j)) as [->|Hne].
      * rewrite Hi in Hj. injection Hj as <-. simpl in Hhold.
        exists j, (Ready (k r)). split; [|split].
        -- apply list_lookup_insert_eq. eapply lookup_lt_Some, Hi.
        -- simpl. right. apply Hhold.
        -- intros i' t' Hne' Hi'. rewrite list_lookup_insert_ne in Hi' by congruence.
           eapply Hothers, Hi'. exact Hne'.
      * destruct (Hothers i _ Hne Hi).
    + destruct (Hex i _ Hi).
Qed.

Lemma run_exclusive {A} (tr : list event) (s s' : loop A) :
  exclusive s → run s tr = Some s' → exclusive s'.
Proof.
  revert s. induction tr as [|e tr IH]; simpl; intros s Hex Hrun.
  - by injection Hrun as <-.
  - destruct (step s e) as [s1|] eqn:Hstep; [|discriminate].
    eapply IH, Hrun. eapply step_exclusive; eauto.
Qed.

Lemma run_app {A} (tr tr' : list event) (s s' s'' : loop A) :
  run s tr = Some s' → run s' tr' = Some s'' → run s (tr ++ tr')%list = Some s''.
Proof.
  revert s. induction tr as [|e tr IH]; simpl; intros s Hrun Hrun'.
  - by injection Hrun as ->.
  - destruct (step s e) as [s1|]; [|discriminate]. by apply IH.
Qed.

Lemma filter_none {A} (P : A → Prop) `{∀ x, Decision (P x)} (l : list A) :
  (∀ i x, l !! i = Some x → ¬ P x) → filter P l = [].
Proof.
  induction l as [|x l IH]; intros Hl; [reflexivity|].
  rewrite filter_cons_False by (apply (Hl 0 x); reflexivity).
  apply IH. intros i y Hi. apply (Hl (S i) y Hi).
Qed.

(** At most one element can pass a test that all but one position fail. *)
Lemma filter_all_but_one {A} (P : A → Prop) `{∀ x, Decision (P x)} (l : list A) j :
  (∀ i x, i ≠ j → l !! i = Some x → ¬ P x) → (length (filter P l) ≤ 1)%nat.
Proof.
  revert j. induction l as [|x l IH]; intros j Hj; [simpl; lia|].
  destruct j as [|j].
  - assert (Hnone : filter P l = []).
    { apply filter_none. intros i y Hi. apply (Hj (S i) y); [lia | exact Hi]. }
    rewrite filter_cons. destruct (decide (P x)); simpl; rewrite Hnone; simpl; lia.
  - rewrite filter_cons_False by (apply (Hj 0 x); [lia | reflexivity]).
    apply (IH j). intros i y Hne Hi. apply (Hj (S i) y); [lia | exact Hi].
Qed.

Lemma exclusive_in_flight {A} (s : loop A) : exclusive s → (in_flight s ≤ 1)%nat.
Proof.
  unfold exclusive, in_flight. destruct (lock s).
  - intros (j & t & _ & _ & Hothers). apply (filter_all_but_one _ _ j).
    intros i x Hne Hi Hx. pose proof (Hothers i x Hne Hi) as Hidle.
    destruct x; [discriminate Hx | exact Hidle].
  - intros Hall. apply (filter_all_but_one _ _ 0).
    intros i x _ Hi Hx. pose proof (Hall i x Hi) as Hidle.
    destruct x; [discriminate Hx | exact Hidle].
Qed.

(** A request that waits for a taken lock cannot move, and whatever the
    others do leaves it waiting. *)
Lemma waiting_is_suspended {A} (s : loop A) i :
  waiting_for_lock s i → lock s = true →
  step s (Resume i) = None ∧ ∀ r, step s (ThreadDone i r) = None.
Proof.
  intros [k Hi] Hl. unfold step. rewrite Hi, Hl. auto.
Qed.

Lemma step_keeps_waiting {A} (s s' : loop A) e i :
  waiting_for_lock s i → lock s = true → step s e = Some s' →
  waiting_for_lock s' i.
Proof.
  intros [k Hi] Hl Hstep. exists k.
  assert (Hkeep : ∀ j t, j ≠ i → <[j := t]> (tasks s) !! i = Some (Ready (LockAcquire k))).
  { intros j t Hne. by rewrite list_lookup_insert_ne. }
  destruct e as [j|j r]; simpl in Hstep.
  - destruct (decide (j = i)) as [->|Hne].
    { rewrite Hi, Hl in Hstep. discriminate. }
    destruct (tasks s !! j) as [[[r|k'|k'|c k']|c k']|]; try discriminate.
    + rewrite Hl in Hstep. discriminate.
    + rewrite Hl in Hstep. injection Hstep as <-. by apply Hkeep.
    + injection Hstep as <-. by apply Hkeep.
  - destruct (decide (j = i)) as [->|Hne].
    { rewrite Hi in Hstep. discriminate. }
    destruct (tasks s !! j) as [[c|c k']|]; try discriminate.
    injection Hstep as <-. by apply Hkeep.
Qed.

(** Whoever is inside can finish and give the lock back; the others stay
    as they are. *)
Lemma holder_can_release {A} (s : loop A) j t :
  lock s = true → tasks s !! j = Some t → holds_lock t →
  ∃ tr s', run s tr = Some s' ∧ lock s' = false ∧
           ∀ i, i ≠ j → tasks s' !! i = tasks s !! i.
Proof.
  intros Hl Hj Hhold.
  assert (Hlen : j < length (tasks s)) by (eapply lookup_lt_Some, Hj).
  assert (Hrelease : ∀ (s1 : loop A) k,
            lock s1 = true → tasks s1 !! j = Some (Ready (LockRelease k)) →
            ∃ tr s', run s1 tr = Some s' ∧ lock s' = false ∧
                     ∀ i, i ≠ j → tasks s' !! i = tasks s1 !! i).
  { intros s1 k Hl1 Hj1. exists [Resume j]. eexists. simpl. rewrite Hj1, Hl1.
    split; [reflexivity|]. simpl. split; [reflexivity|].
    intros i Hne. by rewrite list_lookup_insert_ne. }
  assert (Hthread : ∀ (s1 : loop A) c k,
            lock s1 = true → tasks s1 !! j = Some (InThread c k) →
            (∀ r, follows Leaving (k r)) →
            ∃ tr s', run s1 tr = Some s' ∧ lock s' = false ∧
                     ∀ i, i ≠ j → tasks s' !! i = tasks s1 !! i).
  { intros s1 c k Hl1 Hj1 Hk.
    pose proof (Hk (Return PNone)) as Hk0.
    destruct (k (Return PNone)) as [r|k'|k'|c' k'] eqn:Hkr; simpl in Hk0;
      [discriminate Hk0 | destruct Hk0; discriminate | | destruct Hk0; discriminate].
    destruct (Hrelease {| lock := lock s1;
                          tasks := <[j := Ready (LockRelease k')]> (tasks s1) |} k')
      as (tr & s' & Hrun & Hfree & Hsame).
    { exact Hl1. }
    { simpl. apply list_lookup_insert_eq. eapply lookup_lt_Some, Hj1. }
    exists (ThreadDone j (Return PNone) :: tr), s'. simpl. rewrite Hj1, Hkr.
    split; [exact Hrun|]. split; [exact Hfree|].
    intros i Hne. rewrite Hsame by exact Hne. simpl. by rewrite list_lookup_insert_ne. }
  destruct t as [c|c k]; simpl in Hhold.
  - destruct c as [r|k|k|c k]; simpl in Hhold.
    + destruct Hhold; discriminate.
    + destruct Hhold as [[? _]|[? _]]; discriminate.
    + by apply (Hrelease s k).
    + destruct Hhold as [[_ Hk]|[? _]]; [|discriminate].
      destruct (Hthread {| lock := lock s; tasks := <[j := InThread c k]> (tasks s) |} c k)
        as (tr & s' & Hrun & Hfree & Hsame).
      { exact Hl. }
      { simpl. by apply list_lookup_insert_eq. }
      { exact Hk. }
      exists (Resume j :: tr), s'. simpl. rewrite Hj.
      split; [exact Hrun|]. split; [exact Hfree|].
      intros i Hne. rewrite Hsame by exact Hne. simpl. by rewrite list_lookup_insert_ne.
  - by apply (Hthread s c k).
Qed.

(** With the lock free, a waiting request takes it and its [predict] starts. *)
Lemma waiting_enters {A} (s : loop A) i :
  exclusive s → lock s = false → waiting_for_lock s i →
  ∃ tr s', run s tr = Some s' ∧ being_served s' i.
Proof.
  intros Hex Hl [k Hi].
  assert (Hlen : i < length (tasks s)) by (eapply lookup_lt_Some, Hi).
  unfold exclusive in Hex. rewrite Hl in Hex.
  pose proof (Hex i _ Hi) as Hidle. simpl in Hidle.
  destruct Hidle as [[_ Hk]|[? _]]; [|discriminate].
  destruct k as [r|k|k|c k]; simpl in Hk;
    [discriminate Hk | destruct Hk; discriminate | destruct Hk; discriminate |].
  exists [Resume i; Resume i]. eexists. simpl. rewrite Hi, Hl. simpl.
  rewrite list_lookup_insert_eq by exact Hlen.
  split; [reflexivity|]. exists c, k. simpl.
  apply list_lookup_insert_eq. by rewrite length_insert.
Qed.

Lemma waiting_can_be_served {A} (s : loop A) i :
  exclusive s → waiting_for_lock s i →
  ∃ tr s', run s tr = Some s' ∧ being_served s' i.
Proof.
  intros Hex Hw. destruct (lock s) eqn:Hl; [|by apply waiting_enters].
  pose proof Hex as Hex'. unfold exclusive in Hex'. rewrite Hl in Hex'.
  destruct Hex' as (j & t & Hj & Hhold & Hothers).
  destruct Hw as [k Hi].
  assert (Hne : i ≠ j).
  { intros ->. rewrite Hi in Hj. injection Hj as <-. simpl in Hhold.
    destruct Hhold as [[? _]|[? _]]; discriminate. }
  destruct (holder_can_release s j t Hl Hj Hhold) as (tr1 & s1 & Hrun1 & Hfree & Hsame).
  destruct (waiting_enters s1 i) as (tr2 & s2 & Hrun2 & Hserved).
  - eapply run_exclusive; eauto.
  - exact Hfree.
  - exists k. by rewrite Hsame.
  - exists (tr1 ++ tr2)%list, s2. split; [|exact Hserved]. eapply run_app; eauto.
Qed.

(** Every step brings the whole closer to its end by one. *)
Lemma follows_steps_left {A} ph (c : coro A) :
  follows ph c →
  steps_left c = match ph with Arriving => 4 | Holding => 3 | Leaving => 1 | Left => 0 end.
Proof.
  revert ph. induction c as [r|k IH|k IH|c k IH]; simpl; intros ph.
  - by intros ->.
  - intros [-> Hk]. by rewrite (IH _ Hk).
  - intros [-> Hk]. by rewrite (IH _ Hk).
  - intros [-> Hk]. by rewrite (IH _ _ (Hk _)).
Qed.

Lemma sum_list_insert {A} (f : A → nat) (l : list A) i x y :
  l !! i = Some x →
  (sum_list (f <$> <[i := y]> l) + f x = sum_list (f <$> l) + f y)%nat.
Proof.
  revert i. induction l as [|z l IH]; intros [|i]; csimpl; try discriminate.
  - intros [= ->]. lia.
  - intros Hi. specialize (IH i Hi). lia.
Qed.

Lemma step_weight {A} (s s' : loop A) e :
  exclusive s → step s e = Some s' → total_weight s = S (total_weight s').
Proof.
  unfold total_weight. intros Hex Hstep.
  assert (Hholder : ∀ i c k, tasks s !! i = Some (InThread c k) →
                             ∀ r, follows Leaving (k r)).
  { intros i c k Hi. unfold exclusive in Hex. destruct (lock s).
    - destruct Hex as (j & t & Hj & Hhold & Hothers).
      destruct (decide (i = j)) as [->|Hne].
      + rewrite Hi in Hj. injection Hj as <-. exact Hhold.
      + destruct (Hothers i _ Hne Hi).
    - destruct (Hex i _ Hi). }
  destruct e as [i|i r]; simpl in Hstep.
  - destruct (tasks s !! i) as [[[r|k|k|c k]|c k]|] eqn:Hi; try discriminate.
    + destruct (lock s); [discriminate|]. injection Hstep as <-. simpl.
      pose proof (sum_list_insert weight (tasks s) i _ (Ready k) Hi) as H.
      simpl in H. lia.
    + destruct (lock s) eqn:Hl.
      * injection Hstep as <-. simpl.
        pose proof (sum_list_insert weight (tasks s) i _ (Ready k) Hi) as H.
        simpl in H. lia.
      * unfold exclusive in Hex. rewrite Hl in Hex.
        destruct (Hex i _ Hi) as [[? _]|[? _]]; discriminate.
    + injection Hstep as <-. simpl.
      pose proof (sum_list_insert weight (tasks s) i _ (InThread c k) Hi) as H.
      simpl in H. lia.
  - destruct (tasks s !! i) as [[c|c k]|] eqn:Hi; try discriminate.
    injection Hstep as <-. simpl.
    pose proof (sum_list_insert weight (tasks s) i _ (Ready (k r)) Hi) as H.
    simpl in H.
    rewrite (follows_steps_left _ _ (Hholder i c k Hi r)) in H.
    rewrite (follows_steps_left _ _ (Hholder i c k Hi (Return PNone))) in H. lia.
Qed.

Lemma run_weight {A} (tr : list event) (s s' : loop A) :
  exclusive s → run s tr = Some s' →
  total_weight s = (length tr + total_weight s')%nat.
Proof.
  revert s. induction tr as [|e tr IH]; simpl; intros s Hex Hrun.
  - by injection Hrun as <-.
  - destruct (step s e) as [s1|] eqn:Hstep; [|discriminate].
    rewrite (step_weight s s1 e Hex Hstep).
    rewrite (IH s1 (step_exclusive _ _ _ Hex Hstep) Hrun). lia.
Qed.

Lemma accept_weight reqs : total_weight (accept reqs) = (4 * length reqs)%nat.
Proof.
  unfold total_weight, accept. cbn [tasks].
  induction reqs as [|[m r] reqs IH]; [reflexivity|].
  csimpl. rewrite IH.
  rewrite (follows_steps_left _ _ (handler_follows m r)). lia.
Qed.

(** Nothing can move only when every request has been answered. *)
Lemma stuck_is_finished {A} (s : loop A) :
  exclusive s → (∀ e, step s e = None) →
  ∀ i t, tasks s !! i = Some t → finished t.
Proof.
  unfold exclusive. intros Hex Hstuck. destruct (lock s) eqn:Hl.
  - exfalso. destruct Hex as (j & t & Hj & Hhold & _).
    destruct t as [[r|k|k|c k]|c k]; simpl in Hhold.
    + destruct Hhold; discriminate.
    + destruct Hhold as [[? _]|[? _]]; discriminate.
    + pose proof (Hstuck (Resume j)) as H. simpl in H. rewrite Hj, Hl in H. discriminate.
    + pose proof (Hstuck (Resume j)) as H. simpl in H. rewrite Hj in H. discriminate.
    + pose proof (Hstuck (ThreadDone j (Return PNone))) as H. simpl in H.
      rewrite Hj in H. discriminate.
  - intros i t Hi. pose proof (Hex i t Hi) as Hidle.
    destruct t as [[r|k|k|c k]|c k]; simpl in Hidle.
    + by exists r.
    + pose proof (Hstuck (Resume i)) as H. simpl in H. rewrite Hi, Hl in H. discriminate.
    + destruct Hidle as [[? _]|[? _]]; discriminate.
    + destruct Hidle as [[? _]|[? _]]; discriminate.
    + destruct Hidle.
Qed.

(** C1.  However the event loop interleaves the accepted requests (token or
    span mode), at every instant at most one [detector.predict] is running.
    A request that finds the lock taken is suspended: it cannot move, it
    does not fail, and the steps of the others leave it waiting; from every
    such instant the run can go on so that its own [predict] is running.
    No run is longer than four steps for each request, and a run can only
    come to a halt when every request has been answered. *)
Theorem lock_admits_one_at_a_time (reqs : list (mode * DetectionRequest))
    (tr : list event) (s : loop pyval) :
  run (accept reqs) tr = Some s →
  (in_flight s ≤ 1)%nat ∧
  (∀ i, waiting_for_lock s i → lock s = true →
     step s (Resume i) = None ∧ (∀ r, step s (ThreadDone i r) = None) ∧
     (∀ e s', step s e = Some s' → waiting_for_lock s' i)) ∧
  (∀ i, waiting_for_lock s i →
     ∃ tr' s', run s tr' = Some s' ∧ being_served s' i ∧ (in_flight s' ≤ 1)%nat) ∧
  (length tr ≤ 4 * length reqs)%nat ∧
  ((∀ e, step s e = None) → ∀ i t, tasks s !! i = Some t → finished t).
Proof.
  intros Hrun.
  assert (Hex : exclusive s) by (eapply run_exclusive, Hrun; apply accept_exclusive).
  split; [by apply exclusive_in_flight|]. split; [|split; [|split]].
  - intros i Hw Hl. destruct (waiting_is_suspended s i Hw Hl) as [H1 H2].
    split; [exact H1|]. split; [exact H2|].
    intros e s' Hstep. eapply step_keeps_waiting; eauto.
  - intros i Hw. destruct (waiting_can_be_served s i Hex Hw) as (tr' & s' & Hrun' & Hs).
    exists tr', s'. split; [exact Hrun'|]. split; [exact Hs|].
    apply exclusive_in_flight. eapply run_exclusive; eauto.
  - pose proof (run_weight tr _ _ (accept_exclusive reqs) Hrun) as Hw.
    rewrite accept_weight in Hw. lia.
  - by apply stuck_is_finished.
Qed.

Lemma second_request_waits_its_turn :
  ∃ s, run (accept two_requests) first_is_in = Some s ∧
       being_served s 0 ∧ waiting_for_lock s 1 ∧ lock s = true ∧
       (in_flight s ≤ 1)%nat ∧
       step s (Resume 1) = None ∧
       ∃ tr' s', run s tr' = Some s' ∧ being_served s' 1 ∧ (in_flight s' ≤ 1)%nat.
Proof.
  eexists. split; [reflexivity|].
  assert (Hw : ∀ s, run (accept two_requests) first_is_in = Some s →
                    waiting_for_lock s 1 ∧ lock s = true).
  { intros s Hs. injection Hs as <-. split; [eexists|]; reflexivity. }
  destruct (Hw _ eq_refl) as [Hw1 Hl].
  destruct (lock_admits_one_at_a_time two_requests first_is_in _ eq_refl)
    as (Hone & Hsusp & Hlive & _).
  split; [eexists _, _; reflexivity|].
  split; [exact Hw1|]. split; [exact Hl|]. split; [exact Hone|].
  split; [exact (proj1 (Hsusp 1 Hw1 Hl)) | exact (Hlive 1 Hw1)].
Defined.


(** ** The clients *)

Lemma comprehension_raises {A B} (f : A → outcome B) (P : pyexc → Prop) (l : list A) e :
  (∀ x e, f x = Raise e → P e) → comprehension f l = Raise e → P e.
Proof.
  intros Hf. induction l as [|x l IH]; simpl; [discriminate|].
  destruct (f x) as [y|e'] eqn:Hx; simpl.
  - destruct (comprehension f l) as [ys|e'']; simpl; [discriminate|].
    intros [= ->]. by apply IH.
  - intros [= ->]. eapply Hf, Hx.
Qed.

Lemma field_raises {A} d k (item : pyval → outcome A) e :
  (∀ v e, item v = Raise e → is_ValidationError e) →
  field d k item = Raise e → is_ValidationError e.
Proof.
  intros Hitem. unfold field. destruct (d !! k) as [v|]; [apply Hitem|].
  by intros [= <-].
Qed.

Lemma validate_str_raises v e : validate_str v = Raise e → is_ValidationError e.
Proof. destruct v; simpl; intros [= <-]; reflexivity. Qed.

Lemma of_option_raises {A} what (o : option A) e :
  of_option what o = Raise e → is_ValidationError e.
Proof. destruct o; simpl; intros [= <-]; reflexivity. Qed.

Lemma validate_int_raises lax v e : validate_int lax v = Raise e → is_ValidationError e.
Proof.
  destruct v; simpl; try (intros [= <-]; reflexivity); apply of_option_raises.
Qed.

Lemma validate_float_raises lax v e :
  validate_float lax v = Raise e → is_ValidationError e.
Proof.
  destruct v; simpl; try (intros [= <-]; reflexivity); apply of_option_raises.
Qed.

Lemma validate_list_raises {A} (item : pyval → outcome A) v e :
  (∀ v e, item v = Raise e → is_ValidationError e) →
  validate_list item v = Raise e → is_ValidationError e.
Proof.
  intros Hitem. destruct v; simpl; try (intros [= <-]; reflexivity).
  by apply comprehension_raises.
Qed.

Ltac field_cases H :=
  repeat match type of H with
  | context [field ?d ?k ?item] =>
      let Hf := fresh "Hf" in
      destruct (field d k item) eqn:Hf; simpl in H;
      [| injection H as <-; revert Hf; apply field_raises;
         eauto using validate_str_raises, validate_int_raises, validate_float_raises ]
  end.

Lemma validate_TokenDetectionItem_raises lax v e :
  validate_TokenDetectionItem lax v = Raise e → is_ValidationError e.
Proof.
  destruct v; simpl; try (intros [= <-]; reflexivity).
  unfold mbind, outcome_bind. intros H. field_cases H. discriminate.
Qed.

Lemma validate_SpanDetectionItem_raises lax v e :
  validate_SpanDetectionItem lax v = Raise e → is_ValidationError e.
Proof.
  destruct v; simpl; try (intros [= <-]; reflexivity).
  unfold mbind, outcome_bind. intros H. field_cases H. discriminate.
Qed.

Lemma validate_TokenDetectionResponse_raises lax v e :
  validate_TokenDetectionResponse lax v = Raise e → is_ValidationError e.
Proof.
  destruct v; simpl; try (intros [= <-]; reflexivity).
  unfold mbind, outcome_bind. intros H.
  destruct (field _ _ _) eqn:Hf; simpl in H; [discriminate|].
  injection H as <-. revert Hf. apply field_raises. intros v e'.
  apply validate_list_raises, validate_TokenDetectionItem_raises.
Qed.

Lemma validate_SpanDetectionResponse_raises lax v e :
  validate_SpanDetectionResponse lax v = Raise e → is_ValidationError e.
Proof.
  destruct v; simpl; try (intros [= <-]; reflexivity).
  unfold mbind, outcome_bind. intros H.
  destruct (field _ _ _) eqn:Hf; simpl in H; [discriminate|].
  injection H as <-. revert Hf. apply field_raises. intros v e'.
  apply validate_list_raises, validate_SpanDetectionItem_raises.
Qed.

Lemma model_validate_json_raises {A} (validate : pyval → outcome A) t e :
  (∀ v e, validate v = Raise e → is_ValidationError e) →
  model_validate_json validate t = Raise e → is_ValidationError e.
Proof.
  intros Hv. destruct t; simpl; [apply Hv|]. by intros [= <-].
Qed.

Section ClientFacts.
Context {N : Type} (transport : N → Request → outcome Response * N).
Context (lax : LaxCoercion) (uses_relative uses_netloc : list string).

(** The blocking wrapper and the non-blocking one driven to its end are the
    same function of the network. *)
Lemma wrappers_agree {T} method url request (response_model : pyval → outcome T) n :
  _httpx_request_wrapper transport method url request response_model n =
  run_until_complete transport
    (_httpx_request_wrapper_async method url request response_model) n.
Proof.
  unfold _httpx_request_wrapper, _httpx_request_wrapper_async, httpx_request,
    client_request, mbind, aio_bind. simpl.
  destruct (transport (remote n) _) as [[response|e] n1]; simpl; reflexivity.
Qed.

(** What one call of the wrapper does, by the answer of the server. *)
Lemma wrapper_exchange {T} method url request (response_model : pyval → outcome T)
    n response n1 :
  let rq := {| req_method := upper method; req_url := url;
               req_json := dict_DetectionRequest request |} in
  transport (remote n) rq = (Return response, n1) →
  _httpx_request_wrapper transport method url request response_model n =
  (if is_success response
   then model_validate_json response_model (text_of response)
   else Raise (HTTPStatusError (status_code response) (text_of response)),
   {| remote := n1; sent := sent n ++ [rq] |}).
Proof.
  intros rq Hrq. unfold _httpx_request_wrapper, httpx_request. fold rq. rewrite Hrq.
  unfold raise_for_status, mbind, outcome_bind.
  destruct (is_success response); reflexivity.
Qed.
End ClientFacts.

(** C6.  Whichever call is made (token or span, blocking or non-blocking),
    when the server answers with a status outside 200-299 the call raises
    [HTTPStatusError] (httpx's [HTTPError] for a status) holding that status
    and body, and the network has seen exactly the one request; when the
    status is 2xx and the body does not validate against the response model,
    the call raises that [ValidationError], again after one request, and
    returns no response object. *)
Theorem client_raises_on_bad_answer {N : Type}
    (transport : N → Request → outcome Response * N) (lax : LaxCoercion)
    (uses_relative uses_netloc : list string) (self : LettuceClientBase)
    (endpoint : mode) (contexts : list string) (question answer : string)
    (n : net N) (response : Response) (n1 : N) :
  let rq := detect_request uses_relative uses_netloc self
              match endpoint with Tokens => _TOKEN_ENDPOINT | Spans => _SPANS_ENDPOINT end
              contexts question answer in
  let n' := {| remote := n1; sent := sent n ++ [rq] |} in
  transport (remote n) rq = (Return response, n1) →
  match endpoint with
  | Tokens =>
      let blocking_call :=
        LettuceClient_detect_token transport lax uses_relative uses_netloc self
          contexts question answer n in
      let async_call :=
        run_until_complete transport
          (LettuceClientAsync_detect_token lax uses_relative uses_netloc self
             contexts question answer) n in
      (is_success response = false →
       let e := HTTPStatusError (status_code response) (text_of response) in
       blocking_call = (Raise e, n') ∧ async_call = (Raise e, n')) ∧
      (is_success response = true →
       ∀ e, model_validate_json (validate_TokenDetectionResponse lax) (text_of response)
              = Raise e →
            is_ValidationError e ∧
            blocking_call = (Raise e, n') ∧ async_call = (Raise e, n'))
  | Spans =>
      let blocking_call :=
        LettuceClient_detect_spans transport lax uses_relative uses_netloc self
          contexts question answer n in
      let async_call :=
        run_until_complete transport
          (LettuceClientAsync_detect_spans lax uses_relative uses_netloc self
             contexts question answer) n in
      (is_success response = false →
       let e := HTTPStatusError (status_code response) (text_of response) in
       blocking_call = (Raise e, n') ∧ async_call = (Raise e, n')) ∧
      (is_success response = true →
       ∀ e, model_validate_json (validate_SpanDetectionResponse lax) (text_of response)
              = Raise e →
            is_ValidationError e ∧
            blocking_call = (Raise e, n') ∧ async_call = (Raise e, n'))
  end.
Proof.
  intros rq n' Hrq. destruct endpoint.
  - pose proof (wrapper_exchange transport "post" _ _
                  (validate_TokenDetectionResponse lax) n response n1 Hrq) as Hsync.
    pose proof (wrappers_agree transport "post"
                  (urljoin uses_relative uses_netloc (base_url self)
                     (url_of_path _TOKEN_ENDPOINT))
                  {| contexts := contexts; question := question; answer := answer |}
                  (validate_TokenDetectionResponse lax) n) as Hagree.
    unfold LettuceClient_detect_token, LettuceClientAsync_detect_token.
    rewrite <- Hagree, Hsync. fold rq n'. split.
    + intros ->. by split.
    + intros -> e He. rewrite He. split; [|by split].
      eapply model_validate_json_raises, He.
      apply validate_TokenDetectionResponse_raises.
  - pose proof (wrapper_exchange transport "post" _ _
                  (validate_SpanDetectionResponse lax) n response n1 Hrq) as Hsync.
    pose proof (wrappers_agree transport "post"
                  (urljoin uses_relative uses_netloc (base_url self)
                     (url_of_path _SPANS_ENDPOINT))
                  {| contexts := contexts; question := question; answer := answer |}
                  (validate_SpanDetectionResponse lax) n) as Hagree.
    unfold LettuceClient_detect_spans, LettuceClientAsync_detect_spans.
    rewrite <- Hagree, Hsync. fold rq n'. split.
    + intros ->. by split.
    + intros -> e He. rewrite He. split; [|by split].
      eapply model_validate_json_raises, He.
      apply validate_SpanDetectionResponse_raises.
Qed.

Lemma unavailable_server_raises :
  let rq := detect_request cpython_uses_relative cpython_uses_netloc local_server
              _TOKEN_ENDPOINT (contexts france) (question france) (answer france) in
  let e := HTTPStatusError 503 (Malformed "Service Unavailable") in
  LettuceClient_detect_token always_unavailable no_coercion
    cpython_uses_relative cpython_uses_netloc local_server
    (contexts france) (question france) (answer france) offline
    = (Raise e, {| remote := tt; sent := [rq] |}) ∧
  run_until_complete always_unavailable
    (LettuceClientAsync_detect_token no_coercion
       cpython_uses_relative cpython_uses_netloc local_server
       (contexts france) (question france) (answer france)) offline
    = (Raise e, {| remote := tt; sent := [rq] |}).
Proof.
  intros rq e.
  destruct (client_raises_on_bad_answer always_unavailable no_coercion
              cpython_uses_relative cpython_uses_netloc local_server Tokens
              (contexts france) (question france) (answer france)
              offline unavailable tt eq_refl) as [Hstatus _].
  exact (Hstatus eq_refl).
Defined.

(** ** The two clients side by side *)

Section Parity.
Context {N : Type} (transport : N → Request → outcome Response * N).
Context (lax : LaxCoercion) (uses_relative uses_netloc : list string).

Lemma wrapper_sends_once {T} method url request (response_model : pyval → outcome T) n :
  sent (_httpx_request_wrapper transport method url request response_model n).2 =
  sent n ++ [{| req_method := upper method; req_url := url;
                req_json := dict_DetectionRequest request |}].
Proof.
  unfold _httpx_request_wrapper, httpx_request.
  destruct (transport (remote n) _) as [r n1]. reflexivity.
Qed.

Lemma async_wrapper_asks_once {T} method url request (response_model : pyval → outcome T) :
  ∃ k, _httpx_request_wrapper_async method url request response_model =
         AioRequest {| req_method := upper method; req_url := url;
                       req_json := dict_DetectionRequest request |} k ∧
       ∀ r, ∃ o, k r = AioDone o.
Proof.
  unfold _httpx_request_wrapper_async, client_request, mbind, aio_bind. simpl.
  eexists. split; [reflexivity|]. intros [response|e]; simpl; eexists; reflexivity.
Qed.
End Parity.

(** C8.  For every triple and both endpoints, the blocking client and the
    non-blocking client driven by the event loop put the same single request
    on the wire (same method, URL and body) and, on the same network, end
    the same way: the same typed result or the same exception, and the same
    network afterwards. *)
Theorem clients_are_interchangeable {N : Type}
    (transport : N → Request → outcome Response * N) (lax : LaxCoercion)
    (uses_relative uses_netloc : list string) (self : LettuceClientBase)
    (contexts : list string) (question answer : string) (n : net N) :
  let token_rq := detect_request uses_relative uses_netloc self _TOKEN_ENDPOINT
                    contexts question answer in
  let spans_rq := detect_request uses_relative uses_netloc self _SPANS_ENDPOINT
                    contexts question answer in
  let sync_token := LettuceClient_detect_token transport lax uses_relative uses_netloc
                      self contexts question answer in
  let sync_spans := LettuceClient_detect_spans transport lax uses_relative uses_netloc
                      self contexts question answer in
  let async_token := LettuceClientAsync_detect_token lax uses_relative uses_netloc
                       self contexts question answer in
  let async_spans := LettuceClientAsync_detect_spans lax uses_relative uses_netloc
                       self contexts question answer in
  (sync_token n = run_until_complete transport async_token n ∧
   sent (sync_token n).2 = sent n ++ [token_rq] ∧
   ∃ k, async_token = AioRequest token_rq k ∧ ∀ r, ∃ o, k r = AioDone o) ∧
  (sync_spans n = run_until_complete transport async_spans n ∧
   sent (sync_spans n).2 = sent n ++ [spans_rq] ∧
   ∃ k, async_spans = AioRequest spans_rq k ∧ ∀ r, ∃ o, k r = AioDone o).
Proof.
  intros. split; (split; [apply wrappers_agree|]);
    (split; [apply (wrapper_sends_once transport) | apply async_wrapper_asks_once]).
Qed.

(** ** Client paths and server routes *)

Lemma endpoint_path_survives_urljoin uses_relative uses_netloc base endpoint :
  endpoint = _TOKEN_ENDPOINT ∨ endpoint = _SPANS_ENDPOINT →
  url_path (urljoin uses_relative uses_netloc base (url_of_path endpoint)) = endpoint.
Proof.
  intros Hend. unfold urljoin.
  destruct (url_is_empty base); [reflexivity|].
  destruct (mem (url_scheme base) uses_relative) eqn:Hrel;
    destruct (mem (url_scheme base) uses_netloc) eqn:Hnet;
    destruct Hend as [-> | ->];
    cbn [url_of_path url_scheme url_netloc url_path url_query url_fragment
         url_is_empty String.eqb Ascii.eqb Bool.eqb andb];
    cbv zeta; rewrite ?String.eqb_refl, ?Hrel, ?Hnet; reflexivity.
Qed.

Lemma client_path_is_no_route endpoint :
  endpoint = _TOKEN_ENDPOINT ∨ endpoint = _SPANS_ENDPOINT →
  (endpoint ∉ (route_path <$> app_routes)) ∧
  ∀ method, dispatch app_routes method endpoint = NotFound.
Proof.
  intros [-> | ->]; (split; [|reflexivity]);
    intros Hin; apply list_elem_of_In in Hin; simpl in Hin;
    repeat (destruct Hin as [Hin|Hin]; [discriminate Hin|]); exact Hin.
Qed.

Section Misses.
Context {N : Type} (transport : N → Request → outcome Response * N).

(** What a call through the wrapper leaves on the wire, when its URL is that
    of an endpoint of the client. *)
Lemma wrapper_misses_the_routes {T} uses_relative uses_netloc base endpoint request
    (response_model : pyval → outcome T) (n : net N) :
  endpoint = _TOKEN_ENDPOINT ∨ endpoint = _SPANS_ENDPOINT →
  ∃ rq,
    sent (_httpx_request_wrapper transport "post"
            (urljoin uses_relative uses_netloc base (url_of_path endpoint))
            request response_model n).2 = sent n ++ [rq] ∧
    req_method rq = "POST" ∧ url_path (req_url rq) = endpoint ∧
    req_json rq = dict_DetectionRequest request ∧
    (endpoint ∉ (route_path <$> app_routes)) ∧
    reaches rq = NotFound.
Proof.
  intros Hend. destruct (client_path_is_no_route endpoint Hend) as [Hnot Hmiss].
  eexists. split; [apply (wrapper_sends_once transport)|].
  cbn [req_method req_url req_json]. split; [reflexivity|].
  split; [by apply endpoint_path_survives_urljoin|]. split; [reflexivity|].
  split; [exact Hnot|]. unfold reaches. cbn [req_method req_url].
  rewrite (endpoint_path_survives_urljoin _ _ _ _ Hend). apply Hmiss.
Qed.
End Misses.

(** C9.  Every detection call of either client, whatever the base URL and
    whatever the network does, puts exactly one request on the wire, a POST
    to the path [/v1/lettucedetect/token] or [/v1/lettucedetect/spans] with
    the triple as its body; the detection handlers of the server are
    registered at [/lettucedetect/token] and [/lettucedetect/spans] only;
    the path of the client's request is the path of no route of the server,
    and the router of the server leads it to no handler. *)
Theorem client_paths_miss_the_routes {N : Type}
    (transport : N → Request → outcome Response * N) (lax : LaxCoercion)
    (uses_relative uses_netloc : list string) (self : LettuceClientBase)
    (contexts : list string) (question answer : string) (n : net N) :
  let posts_to (path : string) (after : net N) :=
    ∃ rq, sent after = sent n ++ [rq] ∧
          req_method rq = "POST" ∧ url_path (req_url rq) = path ∧
          req_json rq = dict_DetectionRequest
                          {| contexts := contexts; question := question;
                             answer := answer |} ∧
          (path ∉ (route_path <$> app_routes)) ∧
          reaches rq = NotFound in
  posts_to "/v1/lettucedetect/token"
    (LettuceClient_detect_token transport lax uses_relative uses_netloc self
       contexts question answer n).2 ∧
  posts_to "/v1/lettucedetect/spans"
    (LettuceClient_detect_spans transport lax uses_relative uses_netloc self
       contexts question answer n).2 ∧
  posts_to "/v1/lettucedetect/token"
    (run_until_complete transport
       (LettuceClientAsync_detect_token lax uses_relative uses_netloc self
          contexts question answer) n).2 ∧
  posts_to "/v1/lettucedetect/spans"
    (run_until_complete transport
       (LettuceClientAsync_detect_spans lax uses_relative uses_netloc self
          contexts question answer) n).2 ∧
  route_path <$> List.filter (λ r, is_detection (route_endpoint r)) app_routes
    = ["/lettucedetect/token"; "/lettucedetect/spans"].
Proof.
  intros posts_to.
  unfold LettuceClient_detect_token, LettuceClient_detect_spans,
    LettuceClientAsync_detect_token, LettuceClientAsync_detect_spans.
  rewrite <- !wrappers_agree.
  repeat split;
    first [ apply (wrapper_misses_the_routes transport uses_relative uses_netloc
                     (base_url self) _TOKEN_ENDPOINT); by left
          | apply (wrapper_misses_the_routes transport uses_relative uses_netloc
                     (base_url self) _SPANS_ENDPOINT); by right ].
Qed.


(** ** Round trip of the response models *)

Lemma comprehension_fmap_id {A} (validate : pyval → outcome A) (dump : A → pyval)
    (l : list A) :
  Forall (λ x, validate (dump x) = Return x) l →
  comprehension validate (dump <$> l) = Return l.
Proof.
  induction 1 as [|x l Hx _ IH]; [reflexivity|].
  rewrite fmap_cons. cbn [comprehension]. rewrite Hx.
  unfold mbind at 1, outcome_bind at 1. rewrite IH. reflexivity.
Qed.

Lemma token_item_round_trip lax it :
  finite_token it = true →
  validate_TokenDetectionItem lax (dump_TokenDetectionItem it) = Return it.
Proof.
  destruct it as [t h]. unfold finite_token, dump_TokenDetectionItem. simpl.
  intros Hfin. unfold field, dump_float. rewrite Hfin.
  repeat first [rewrite lookup_insert_eq | rewrite lookup_insert_ne by discriminate].
  reflexivity.
Qed.

Lemma span_item_round_trip lax it :
  finite_span it = true →
  validate_SpanDetectionItem lax (dump_SpanDetectionItem it) = Return it.
Proof.
  destruct it as [s e t h]. unfold finite_span, dump_SpanDetectionItem. simpl.
  intros Hfin. unfold field, dump_float. rewrite Hfin.
  repeat first [rewrite lookup_insert_eq | rewrite lookup_insert_ne by discriminate].
  reflexivity.
Qed.

(** C7, as stated, fails: a response whose score is NaN is written with
    [null] in the place of the score, and reading that back is a
    [ValidationError]. *)
Lemma nan_score_does_not_round_trip :
  model_validate_json (validate_TokenDetectionResponse no_coercion)
    (dump_TokenDetectionResponse nan_response) = Raise (ValidationError "float_type") ∧
  model_validate_json (validate_TokenDetectionResponse no_coercion)
    (dump_TokenDetectionResponse nan_response) ≠ Return nan_response.
Proof.
  assert (H : model_validate_json (validate_TokenDetectionResponse no_coercion)
                (dump_TokenDetectionResponse nan_response)
              = Raise (ValidationError "float_type")) by reflexivity.
  split; [exact H|]. rewrite H. discriminate.
Qed.

(** C7, amended.  A response of either kind whose scores are all finite
    (neither NaN nor an infinity) is read back from its serialization as
    the same value; so is the response with no predictions. *)
Theorem finite_responses_round_trip (lax : LaxCoercion)
    (tokens : TokenDetectionResponse) (spans : SpanDetectionResponse) :
  forallb finite_token (token_predictions tokens) = true →
  forallb finite_span (span_predictions spans) = true →
  model_validate_json (validate_TokenDetectionResponse lax)
    (dump_TokenDetectionResponse tokens) = Return tokens ∧
  model_validate_json (validate_SpanDetectionResponse lax)
    (dump_SpanDetectionResponse spans) = Return spans ∧
  model_validate_json (validate_TokenDetectionResponse lax)
    (dump_TokenDetectionResponse {| token_predictions := [] |})
    = Return {| token_predictions := [] |} ∧
  model_validate_json (validate_SpanDetectionResponse lax)
    (dump_SpanDetectionResponse {| span_predictions := [] |})
    = Return {| span_predictions := [] |}.
Proof.
  intros Ht Hs. destruct tokens as [ts], spans as [ss]. simpl in Ht, Hs.
  unfold dump_TokenDetectionResponse, dump_SpanDetectionResponse. simpl.
  unfold field. rewrite !lookup_insert_eq. simpl.
  rewrite (comprehension_fmap_id (validate_TokenDetectionItem lax)
             dump_TokenDetectionItem ts).
  2:{ apply Forall_forall. intros it Hin. apply token_item_round_trip.
      rewrite forallb_forall in Ht. apply Ht. by apply list_elem_of_In. }
  rewrite (comprehension_fmap_id (validate_SpanDetectionItem lax)
             dump_SpanDetectionItem ss).
  2:{ apply Forall_forall. intros it Hin. apply span_item_round_trip.
      rewrite forallb_forall in Hs. apply Hs. by apply list_elem_of_In. }
  repeat split.
Qed.

Lemma scored_responses_round_trip :
  model_validate_json (validate_TokenDetectionResponse no_coercion)
    (dump_TokenDetectionResponse scored_tokens) = Return scored_tokens ∧
  model_validate_json (validate_SpanDetectionResponse no_coercion)
    (dump_SpanDetectionResponse scored_spans) = Return scored_spans ∧
  model_validate_json (validate_TokenDetectionResponse no_coercion)
    (dump_TokenDetectionResponse {| token_predictions := [] |})
    = Return {| token_predictions := [] |} ∧
  model_validate_json (validate_SpanDetectionResponse no_coercion)
    (dump_SpanDetectionResponse {| span_predictions := [] |})
    = Return {| span_predictions := [] |}.
Proof.
  apply (finite_responses_round_trip no_coercion scored_tokens scored_spans);
    reflexivity.
Defined.

(** ** The launch script *)










(** * More of the code *)

(** ** One request, whatever the detector does *)

(** X1.  A request served alone, in either mode and whatever [predict]
    returns or raises: the route comes to an end, [predict] has been called
    exactly once, with the contexts, question and answer of the request and
    the output format of the mode, the detector is as that call left it and
    the lock is free again. *)
Theorem request_takes_one_turn {D : Type}
    (predict : D → predict_call → outcome pyval * D) (lax : LaxCoercion)
    (request : DetectionRequest) (w : world D) :
  detector_lock w = false →
  (∃ r, run_alone predict (token_route lax request) w =
        Some (r, {| detector := (predict (detector w) (predict_call_of request "tokens")).2;
                    detector_lock := false;
                    calls := calls w ++ [predict_call_of request "tokens"] |})) ∧
  (∃ r, run_alone predict (spans_route lax request) w =
        Some (r, {| detector := (predict (detector w) (predict_call_of request "spans")).2;
                    detector_lock := false;
                    calls := calls w ++ [predict_call_of request "spans"] |})).
Proof.
  intros Hfree. split.
  - destruct (predict (detector w) (predict_call_of request "tokens")) as [o d] eqn:Hp.
    unfold token_route, run_token_detection, mbind, coro_bind.
    rewrite !run_alone_await.
    rewrite (run_detector_safe_alone predict request "tokens" w o d Hfree Hp).
    destruct o as [preds|e]; simpl; [|eauto].
    repeat match goal with
           | |- context [match ?x with Return _ => _ | Raise _ => _ end] =>
               destruct x; simpl
           end; eauto.
  - destruct (predict (detector w) (predict_call_of request "spans")) as [o d] eqn:Hp.
    unfold spans_route, run_span_detection, mbind, coro_bind.
    rewrite !run_alone_await.
    rewrite (run_detector_safe_alone predict request "spans" w o d Hfree Hp).
    destruct o as [preds|e]; simpl; [|eauto].
    repeat match goal with
           | |- context [match ?x with Return _ => _ | Raise _ => _ end] =>
               destruct x; simpl
           end; eauto.
Qed.

Lemma france_takes_one_turn :
  (∃ r, run_alone failing_detector (token_route no_coercion france) (startup tt) =
        Some (r, {| detector := tt; detector_lock := false;
                    calls := [predict_call_of france "tokens"] |})) ∧
  (∃ r, run_alone failing_detector (spans_route no_coercion france) (startup tt) =
        Some (r, {| detector := tt; detector_lock := false;
                    calls := [predict_call_of france "spans"] |})).
Proof.
  apply (request_takes_one_turn failing_detector no_coercion france (startup tt)).
  reflexivity.
Defined.

(** ** The request model *)

Lemma comprehension_validate_str (l : list pyval) (cs : list string) :
  comprehension validate_str l = Return cs ↔ l = PStr <$> cs.
Proof.
  revert cs. induction l as [|v l IH]; intros cs; simpl.
  - split.
    + intros [= <-]. reflexivity.
    + destruct cs; [reflexivity | discriminate].
  - destruct v; simpl; try (split; [discriminate | destruct cs; discriminate]).
    destruct (comprehension validate_str l) as [cs'|e] eqn:Hl; simpl.
    + split.
      * intros [= <-]. rewrite fmap_cons. f_equal. by apply IH.
      * destruct cs as [|c cs]; [discriminate|]. rewrite fmap_cons.
        intros [= -> Hrest]. apply IH in Hrest. by injection Hrest as ->.
    + split; [discriminate|].
      destruct cs as [|c cs]; [discriminate|]. rewrite fmap_cons.
      intros [= -> Hrest]. apply IH in Hrest. discriminate.
Qed.

(** X2.  The request model takes a body exactly when it is an object that
    has a list of strings under [contexts] and strings under [question] and
    [answer]: nothing is converted, other keys are ignored, and the request
    built has just these values. *)
Theorem request_is_accepted_iff (d : gmap string pyval) (request : DetectionRequest) :
  validate_DetectionRequest (PDict d) = Return request ↔
  d !! "contexts" = Some (PList (PStr <$> contexts request)) ∧
  d !! "question" = Some (PStr (question request)) ∧
  d !! "answer" = Some (PStr (answer request)).
Proof.
  destruct request as [cs q a]. simpl. unfold field. split.
  - destruct (d !! "contexts") as [[| | | | |l|]|]; simpl; try discriminate.
    destruct (comprehension validate_str l) as [cs'|] eqn:Hl; simpl; [|discriminate].
    destruct (d !! "question") as [[| | | |q'| |]|]; simpl; try discriminate.
    destruct (d !! "answer") as [[| | | |a'| |]|]; simpl; try discriminate.
    intros [= -> -> ->]. apply comprehension_validate_str in Hl as ->. done.
  - intros (-> & -> & ->). simpl.
    by rewrite (proj2 (comprehension_validate_str _ cs) eq_refl).
Qed.

(** X3.  A body that lacks one of the three fields is answered 422 by both
    endpoints, and nothing else happens: the detector is not called and the
    lock is not touched, whether it is free or taken. *)
Theorem missing_field_is_rejected {D : Type}
    (predict : D → predict_call → outcome pyval * D) (lax : LaxCoercion)
    (d : gmap string pyval) (w : world D) :
  d !! "contexts" = None ∨ d !! "question" = None ∨ d !! "answer" = None →
  post_token predict lax (Json (PDict d)) w = Some (UnprocessableEntity, w) ∧
  post_spans predict lax (Json (PDict d)) w = Some (UnprocessableEntity, w).
Proof.
  intros Hmiss.
  assert (Hrej : ∃ e, validate_DetectionRequest (PDict d) = Raise e).
  { simpl. unfold field.
    destruct Hmiss as [H|[H|H]]; rewrite H; simpl;
      repeat (match goal with
              | |- context [match ?x with Some _ => _ | None => _ end] => destruct x
              | |- context [validate_list ?f ?x] => destruct (validate_list f x)
              | |- context [validate_str ?x] => destruct (validate_str x)
              end; simpl); eauto. }
  destruct Hrej as [e He].
  unfold post_token, post_spans, serve, model_validate_json. by rewrite He.
Qed.

Lemma request_without_question_is_rejected :
  post_token canned_detector no_coercion
    (Json (PDict (<["contexts" := PList []]> (<["answer" := PStr "Paris."]> ∅))))
    (startup tt) = Some (UnprocessableEntity, startup tt) ∧
  post_spans canned_detector no_coercion
    (Json (PDict (<["contexts" := PList []]> (<["answer" := PStr "Paris."]> ∅))))
    (startup tt) = Some (UnprocessableEntity, startup tt).
Proof.
  apply (missing_field_is_rejected canned_detector no_coercion
           (<["contexts" := PList []]> (<["answer" := PStr "Paris."]> ∅)) (startup tt)).
  right. left. reflexivity.
Defined.

(** ** What the handlers make of the detector's answer *)

Lemma handler_shape m request :
  ∃ K, handler m request =
         LockAcquire (RunInThreadpool (predict_call_of request (output_format_of m)) K) ∧
       ∀ o, K o = LockRelease (Finished (shape m o)).
Proof.
  destruct m; eexists; (split; [reflexivity|]); intros [preds|e]; reflexivity.
Qed.

Section HandlerFacts.
Context {D : Type} (predict : D → predict_call → outcome pyval * D).

Lemma handler_alone m request (w : world D) o d :
  detector_lock w = false →
  predict (detector w) (predict_call_of request (output_format_of m)) = (o, d) →
  run_alone predict (handler m request) w =
  Some (shape m o, {| detector := d; detector_lock := false;
                      calls := calls w ++ [predict_call_of request (output_format_of m)] |}).
Proof.
  intros Hfree Hp. destruct (handler_shape m request) as (K & -> & HK).
  simpl. rewrite Hfree. simpl. rewrite Hp, HK. reflexivity.
Qed.

Lemma token_route_is_handler lax request :
  token_route lax request =
  await (handler Tokens request)
    (λ content, Finished (response_model (validate_TokenDetectionResponse lax) content)).
Proof. reflexivity. Qed.

Lemma spans_route_is_handler lax request :
  spans_route lax request =
  await (handler Spans request)
    (λ content, Finished (response_model (validate_SpanDetectionResponse lax) content)).
Proof. reflexivity. Qed.

(** When the handler raises, so does the route, and the answer is 500. *)
Lemma handler_raises_500 lax m request body (w w' : world D) e :
  model_validate_json validate_DetectionRequest body = Return request →
  run_alone predict (handler m request) w = Some (Raise e, w') →
  match m with
  | Tokens => run_alone predict (token_route lax request) w = Some (Raise e, w') ∧
              post_token predict lax body w = Some (InternalServerError, w')
  | Spans => run_alone predict (spans_route lax request) w = Some (Raise e, w') ∧
             post_spans predict lax body w = Some (InternalServerError, w')
  end.
Proof.
  intros Hbody Hrun. destruct m.
  - assert (Hroute : run_alone predict (token_route lax request) w = Some (Raise e, w'))
      by (rewrite token_route_is_handler, run_alone_await, Hrun; reflexivity).
    split; [exact Hroute|]. unfold post_token, serve. by rewrite Hbody, Hroute.
  - assert (Hroute : run_alone predict (spans_route lax request) w = Some (Raise e, w'))
      by (rewrite spans_route_is_handler, run_alone_await, Hrun; reflexivity).
    split; [exact Hroute|]. unfold post_spans, serve. by rewrite Hbody, Hroute.
Qed.
End HandlerFacts.

(** ** Answers of the detector that do not fit *)

Lemma comprehension_stops {A B} (f : A → outcome B) (good : list A) p rest e :
  Forall (λ x, ∃ y, f x = Return y) good → f p = Raise e →
  comprehension f (good ++ p :: rest) = Raise e.
Proof.
  intros Hgood Hp. induction Hgood as [|x good [y Hy] _ IH]; simpl.
  - by rewrite Hp.
  - by rewrite Hy, IH.
Qed.

Lemma raw_entry_converts m p :
  is_raw_entry m p = true → ∃ y, convert_entry m p = Return y.
Proof.
  destruct m; simpl; intros H.
  - destruct (convert_token_typed no_coercion p H) as (v & _ & Hv & _). eauto.
  - destruct (convert_span_typed no_coercion p H) as (v & _ & Hv & _). eauto.
Qed.

Lemma convert_entry_missing m d k :
  missing_key (keys_read m) d = Some k → convert_entry m (PDict d) = Raise (KeyError k).
Proof.
  destruct m; simpl; unfold convert_token, convert_span; simpl;
    repeat (match goal with
            | |- context [d !! ?key] => destruct (d !! key); simpl
            end); intros [= <-]; try reflexivity; discriminate.
Qed.

(** X4.  When an entry of the detector's list lacks one of the keys the
    handler reads, the handler raises [KeyError] for the first key that is
    missing, no predictions are returned for the entries before it, and the
    endpoint answers 500; the lock is free again. *)
Theorem entry_without_key_is_500 {D : Type}
    (predict : D → predict_call → outcome pyval * D) (lax : LaxCoercion)
    (m : mode) (request : DetectionRequest) (body : text_body) (w : world D)
    (good : list pyval) (d : gmap string pyval) (rest : list pyval) (dnew : D)
    (k : string) :
  detector_lock w = false →
  model_validate_json validate_DetectionRequest body = Return request →
  predict (detector w) (predict_call_of request (output_format_of m))
    = (Return (PList (good ++ PDict d :: rest)), dnew) →
  forallb (is_raw_entry m) good = true →
  missing_key (keys_read m) d = Some k →
  let w' := {| detector := dnew; detector_lock := false;
               calls := calls w ++ [predict_call_of request (output_format_of m)] |} in
  match m with
  | Tokens => run_alone predict (token_route lax request) w = Some (Raise (KeyError k), w') ∧
              post_token predict lax body w = Some (InternalServerError, w')
  | Spans => run_alone predict (spans_route lax request) w = Some (Raise (KeyError k), w') ∧
             post_spans predict lax body w = Some (InternalServerError, w')
  end.
Proof.
  intros Hfree Hbody Hp Hgood Hk w'.
  apply handler_raises_500; [exact Hbody|].
  rewrite (handler_alone predict m request w _ dnew Hfree Hp). do 2 f_equal.
  unfold shape. simpl.
  rewrite (comprehension_stops (convert_entry m) good (PDict d) rest (KeyError k));
    [reflexivity| |by apply convert_entry_missing].
  apply Forall_forall. intros p Hin. apply raw_entry_converts.
  rewrite forallb_forall in Hgood. apply Hgood. by apply list_elem_of_In.
Qed.

Lemma entry_without_prob_is_500 :
  let w' := {| detector := tt; detector_lock := false;
               calls := [predict_call_of france "tokens"] |} in
  run_alone sloppy_detector (token_route no_coercion france) (startup tt)
    = Some (Raise (KeyError "prob"), w') ∧
  post_token sloppy_detector no_coercion france_body (startup tt)
    = Some (InternalServerError, w').
Proof.
  apply (entry_without_key_is_500 sloppy_detector no_coercion Tokens france france_body
           (startup tt) raw_tokens entry_without_prob [] tt "prob"); reflexivity.
Defined.

Lemma shape_not_iterable m v :
  not_iterable v = true → shape m (Return v) = Raise (TypeError "object is not iterable").
Proof. destruct v; simpl; try discriminate; reflexivity. Qed.

(** X5.  When the detector answers with something that cannot be iterated
    ([None], a number, a truth value), the handler raises [TypeError] and
    the endpoint answers 500, in both modes; the lock is free again. *)
Theorem answer_not_iterable_is_500 {D : Type}
    (predict : D → predict_call → outcome pyval * D) (lax : LaxCoercion)
    (m : mode) (request : DetectionRequest) (body : text_body) (w : world D)
    (v : pyval) (dnew : D) :
  detector_lock w = false →
  model_validate_json validate_DetectionRequest body = Return request →
  predict (detector w) (predict_call_of request (output_format_of m)) = (Return v, dnew) →
  not_iterable v = true →
  let w' := {| detector := dnew; detector_lock := false;
               calls := calls w ++ [predict_call_of request (output_format_of m)] |} in
  let e := TypeError "object is not iterable" in
  match m with
  | Tokens => run_alone predict (token_route lax request) w = Some (Raise e, w') ∧
              post_token predict lax body w = Some (InternalServerError, w')
  | Spans => run_alone predict (spans_route lax request) w = Some (Raise e, w') ∧
             post_spans predict lax body w = Some (InternalServerError, w')
  end.
Proof.
  intros Hfree Hbody Hp Hv w' e.
  apply handler_raises_500; [exact Hbody|].
  rewrite (handler_alone predict m request w _ dnew Hfree Hp).
  by rewrite shape_not_iterable.
Qed.

Lemma answer_none_is_500 :
  let w' := {| detector := tt; detector_lock := false;
               calls := [predict_call_of france "spans"] |} in
  run_alone silent_detector (spans_route no_coercion france) (startup tt)
    = Some (Raise (TypeError "object is not iterable"), w') ∧
  post_spans silent_detector no_coercion france_body (startup tt)
    = Some (InternalServerError, w').
Proof.
  apply (answer_not_iterable_is_500 silent_detector no_coercion Spans france france_body
           (startup tt) PNone tt); reflexivity.
Defined.

Lemma comprehension_app {A B} (f : A → outcome B) (l1 l2 : list A) ys1 ys2 :
  comprehension f l1 = Return ys1 → comprehension f l2 = Return ys2 →
  comprehension f (l1 ++ l2) = Return (ys1 ++ ys2).
Proof.
  revert ys1. induction l1 as [|x l1 IH]; simpl; intros ys1.
  - by intros [= <-].
  - destruct (f x) as [y|]; simpl; [|discriminate].
    destruct (comprehension f l1) as [ys|]; simpl; [|discriminate].
    intros [= <-] H2. by rewrite (IH ys eq_refl H2).
Qed.

Lemma comprehension_all {A B} (f : A → outcome B) (l : list A) :
  Forall (λ x, ∃ y, f x = Return y) l ↔ ∃ ys, comprehension f l = Return ys.
Proof.
  split.
  - induction 1 as [|x l [y Hy] _ [ys Hys]]; simpl; [eauto|].
    rewrite Hy, Hys. simpl. eauto.
  - induction l as [|x l IH]; simpl; intros [ys Hys]; constructor.
    + destruct (f x); [eauto | discriminate].
    + apply IH. destruct (f x); simpl in Hys; [|discriminate].
      destruct (comprehension f l); [eauto | discriminate].
Qed.

Lemma has_keys_converts m p : has_keys m p = true → ∃ y, convert_entry m p = Return y.
Proof.
  destruct p as [| | | | | |d]; simpl; try discriminate.
  destruct m; simpl; unfold convert_token, convert_span; simpl;
    repeat (match goal with
            | |- context [d !! ?key] => destruct (d !! key); simpl
            end); try discriminate; eauto.
Qed.

(** X6.  When an entry of the detector's token list has something under
    ["token"] that is not a text, the handler returns its dict, the response
    model refuses it, and the endpoint answers 500: nothing of the list
    reaches the caller. *)
Theorem token_not_a_string_is_500 {D : Type}
    (predict : D → predict_call → outcome pyval * D) (lax : LaxCoercion)
    (request : DetectionRequest) (body : text_body) (w : world D)
    (good : list pyval) (d : gmap string pyval) (rest : list pyval) (dnew : D)
    (v h : pyval) :
  detector_lock w = false →
  model_validate_json validate_DetectionRequest body = Return request →
  predict (detector w) (predict_call_of request "tokens")
    = (Return (PList (good ++ PDict d :: rest)), dnew) →
  forallb is_raw_token good = true →
  d !! "token" = Some v → is_str v = false → d !! "prob" = Some h →
  forallb (has_keys Tokens) rest = true →
  let w' := {| detector := dnew; detector_lock := false;
               calls := calls w ++ [predict_call_of request "tokens"] |} in
  ∃ e, is_ValidationError e ∧
       run_alone predict (token_route lax request) w
         = Some (Raise (ResponseValidationError e), w') ∧
       post_token predict lax body w = Some (InternalServerError, w').
Proof.
  intros Hfree Hbody Hp Hgood Hv Hnot Hh Hrest w'.
  destruct (comprehension_compose convert_token (validate_TokenDetectionItem lax)
              token_agrees good) as (vs & items & Hvs & Hitems & _).
  { apply Forall_forall. intros p Hin. apply convert_token_typed.
    rewrite forallb_forall in Hgood. apply Hgood. by apply list_elem_of_In. }
  assert (Hrest' : ∃ vrest, comprehension convert_token rest = Return vrest).
  { apply comprehension_all, Forall_forall. intros p Hin.
    apply (has_keys_converts Tokens). rewrite forallb_forall in Hrest.
    apply Hrest. by apply list_elem_of_In. }
  destruct Hrest' as [vrest Hvrest].
  set (bad := PDict (<["token" := v]> (<["hallucination_score" := h]> ∅))).
  assert (Hbad : convert_token (PDict d) = Return bad).
  { unfold convert_token. simpl. by rewrite Hv, Hh. }
  assert (Hconv : comprehension convert_token (good ++ PDict d :: rest)
                  = Return (vs ++ bad :: vrest)).
  { apply comprehension_app; [exact Hvs|]. simpl. by rewrite Hbad, Hvrest. }
  assert (Hrefuse : validate_TokenDetectionItem lax bad
                    = Raise (ValidationError "string_type")).
  { unfold bad. simpl. unfold field. rewrite lookup_insert_eq. by destruct v. }
  assert (Hval : comprehension (validate_TokenDetectionItem lax) (vs ++ bad :: vrest)
                 = Raise (ValidationError "string_type")).
  { apply comprehension_stops; [|exact Hrefuse]. apply comprehension_all. eauto. }
  assert (Hroute : run_alone predict (token_route lax request) w
                   = Some (Raise (ResponseValidationError (ValidationError "string_type")), w')).
  { rewrite token_route_is_handler, run_alone_await.
    rewrite (handler_alone predict Tokens request w _ dnew Hfree Hp).
    unfold shape. simpl. rewrite Hconv. simpl.
    unfold response_model, validate_TokenDetectionResponse, field.
    rewrite lookup_insert_eq. simpl. by rewrite Hval. }
  exists (ValidationError "string_type"). split; [reflexivity|].
  split; [exact Hroute|]. unfold post_token, serve. by rewrite Hbody, Hroute.
Qed.

Lemma numbered_token_is_500 :
  let w' := {| detector := tt; detector_lock := false;
               calls := [predict_call_of france "tokens"] |} in
  ∃ e, is_ValidationError e ∧
       run_alone numbering_detector (token_route no_coercion france) (startup tt)
         = Some (Raise (ResponseValidationError e), w') ∧
       post_token numbering_detector no_coercion france_body (startup tt)
         = Some (InternalServerError, w').
Proof.
  apply (token_not_a_string_is_500 numbering_detector no_coercion france france_body
           (startup tt) raw_tokens entry_with_number [] tt (PInt 7) (PFloat half));
    reflexivity.
Defined.

(** ** From the detector's answer to the client's object *)






(** ** The clients, on answers that are fine and on no answer at all *)

(** X8.  A call (token or span, blocking or non-blocking) whose answer has a
    2xx status and a body that validates returns the validated response,
    after exactly one request. *)
Theorem client_returns_validated_answer {N : Type}
    (transport : N → Request → outcome Response * N) (lax : LaxCoercion)
    (uses_relative uses_netloc : list string) (self : LettuceClientBase)
    (endpoint : mode) (contexts : list string) (question answer : string)
    (n : net N) (response : Response) (n1 : N) :
  let rq := detect_request uses_relative uses_netloc self
              match endpoint with Tokens => _TOKEN_ENDPOINT | Spans => _SPANS_ENDPOINT end
              contexts question answer in
  let n' := {| remote := n1; sent := sent n ++ [rq] |} in
  transport (remote n) rq = (Return response, n1) →
  is_success response = true →
  match endpoint with
  | Tokens =>
      ∀ r, model_validate_json (validate_TokenDetectionResponse lax) (text_of response)
             = Return r →
           LettuceClient_detect_token transport lax uses_relative uses_netloc self
             contexts question answer n = (Return r, n') ∧
           run_until_complete transport
             (LettuceClientAsync_detect_token lax uses_relative uses_netloc self
                contexts question answer) n = (Return r, n')
  | Spans =>
      ∀ r, model_validate_json (validate_SpanDetectionResponse lax) (text_of response)
             = Return r →
           LettuceClient_detect_spans transport lax uses_relative uses_netloc self
             contexts question answer n = (Return r, n') ∧
           run_until_complete transport
             (LettuceClientAsync_detect_spans lax uses_relative uses_netloc self
                contexts question answer) n = (Return r, n')
  end.
Proof.
  intros rq n' Hrq Hok. destruct endpoint; intros r Hr.
  - pose proof (wrapper_exchange transport "post" _ _
                  (validate_TokenDetectionResponse lax) n response n1 Hrq) as Hsync.
    rewrite Hok, Hr in Hsync.
    unfold LettuceClient_detect_token, LettuceClientAsync_detect_token.
    rewrite <- wrappers_agree. by split.
  - pose proof (wrapper_exchange transport "post" _ _
                  (validate_SpanDetectionResponse lax) n response n1 Hrq) as Hsync.
    rewrite Hok, Hr in Hsync.
    unfold LettuceClient_detect_spans, LettuceClientAsync_detect_spans.
    rewrite <- wrappers_agree. by split.
Qed.

(** X9.  When the exchange itself fails (the transport raises), every call
    raises that exception as it is, after the one attempt: there is no
    second request and nothing is validated. *)
Theorem client_passes_transport_error {N : Type}
    (transport : N → Request → outcome Response * N) (lax : LaxCoercion)
    (uses_relative uses_netloc : list string) (self : LettuceClientBase)
    (endpoint : mode) (contexts : list string) (question answer : string)
    (n : net N) (e : pyexc) (n1 : N) :
  let rq := detect_request uses_relative uses_netloc self
              match endpoint with Tokens => _TOKEN_ENDPOINT | Spans => _SPANS_ENDPOINT end
              contexts question answer in
  let n' := {| remote := n1; sent := sent n ++ [rq] |} in
  transport (remote n) rq = (Raise e, n1) →
  match endpoint with
  | Tokens =>
      LettuceClient_detect_token transport lax uses_relative uses_netloc self
        contexts question answer n = (Raise e, n') ∧
      run_until_complete transport
        (LettuceClientAsync_detect_token lax uses_relative uses_netloc self
           contexts question answer) n = (Raise e, n')
  | Spans =>
      LettuceClient_detect_spans transport lax uses_relative uses_netloc self
        contexts question answer n = (Raise e, n') ∧
      run_until_complete transport
        (LettuceClientAsync_detect_spans lax uses_relative uses_netloc self
           contexts question answer) n = (Raise e, n')
  end.
Proof.
  intros rq n' Hrq.
  assert (Hsync : ∀ T (response_model : pyval → outcome T) url request,
            transport (remote n)
              {| req_method := upper "post"; req_url := url;
                 req_json := dict_DetectionRequest request |} = (Raise e, n1) →
            _httpx_request_wrapper transport "post" url request response_model n =
            (Raise e, {| remote := n1;
                         sent := sent n ++ [{| req_method := upper "post"; req_url := url;
                                               req_json := dict_DetectionRequest request |}] |})).
  { intros T response_model url request H.
    unfold _httpx_request_wrapper, httpx_request. by rewrite H. }
  destruct endpoint;
    unfold LettuceClient_detect_token, LettuceClientAsync_detect_token,
      LettuceClient_detect_spans, LettuceClientAsync_detect_spans;
    rewrite <- wrappers_agree; (split; [|]); by apply Hsync.
Qed.

Lemma scored_answer_is_returned :
  let rq := detect_request cpython_uses_relative cpython_uses_netloc local_server
              _TOKEN_ENDPOINT (contexts france) (question france) (answer france) in
  LettuceClient_detect_token always_scored no_coercion
    cpython_uses_relative cpython_uses_netloc local_server
    (contexts france) (question france) (answer france) offline
    = (Return scored_tokens, {| remote := tt; sent := [rq] |}) ∧
  run_until_complete always_scored
    (LettuceClientAsync_detect_token no_coercion
       cpython_uses_relative cpython_uses_netloc local_server
       (contexts france) (question france) (answer france)) offline
    = (Return scored_tokens, {| remote := tt; sent := [rq] |}).
Proof.
  intros rq.
  apply (client_returns_validated_answer always_scored no_coercion
           cpython_uses_relative cpython_uses_netloc local_server Tokens
           (contexts france) (question france) (answer france) offline
           {| status_code := 200; text_of := dump_TokenDetectionResponse scored_tokens |}
           tt eq_refl eq_refl scored_tokens).
  reflexivity.
Defined.

Lemma unreachable_host_raises :
  let rq := detect_request cpython_uses_relative cpython_uses_netloc local_server
              _SPANS_ENDPOINT (contexts france) (question france) (answer france) in
  LettuceClient_detect_spans unreachable_host no_coercion
    cpython_uses_relative cpython_uses_netloc local_server
    (contexts france) (question france) (answer france) offline
    = (Raise ConnectError, {| remote := tt; sent := [rq] |}) ∧
  run_until_complete unreachable_host
    (LettuceClientAsync_detect_spans no_coercion
       cpython_uses_relative cpython_uses_netloc local_server
       (contexts france) (question france) (answer france)) offline
    = (Raise ConnectError, {| remote := tt; sent := [rq] |}).
Proof.
  intros rq.
  apply (client_passes_transport_error unreachable_host no_coercion
           cpython_uses_relative cpython_uses_netloc local_server Spans
           (contexts france) (question france) (answer france) offline
           ConnectError tt eq_refl).
Defined.

(** ** The URL of a call *)

(** X10.  The URL of a detection call, for either endpoint: with no base, or
    a base whose scheme is not one [urljoin] resolves against, it is the
    bare endpoint path, without scheme or host; otherwise it has the scheme
    of the base, its host when the scheme has one, and the endpoint as its
    whole path: the path, query and fragment of the base are dropped. *)
Theorem base_path_is_discarded (uses_relative uses_netloc : list string)
    (base : URL) (endpoint : string) :
  endpoint = _TOKEN_ENDPOINT ∨ endpoint = _SPANS_ENDPOINT →
  urljoin uses_relative uses_netloc base (url_of_path endpoint) =
  if url_is_empty base || negb (mem (url_scheme base) uses_relative)
  then url_of_path endpoint
  else {| url_scheme := url_scheme base;
          url_netloc := if mem (url_scheme base) uses_netloc then url_netloc base else "";
          url_path := endpoint; url_query := ""; url_fragment := "" |}.
Proof.
  intros Hend. unfold urljoin.
  destruct (url_is_empty base); [reflexivity|].
  destruct (mem (url_scheme base) uses_relative) eqn:Hrel;
    destruct (mem (url_scheme base) uses_netloc) eqn:Hnet;
    destruct Hend as [-> | ->];
    cbn [url_of_path url_scheme url_netloc url_path url_query url_fragment
         url_is_empty String.eqb Ascii.eqb Bool.eqb andb orb negb];
    cbv zeta; rewrite ?String.eqb_refl, ?Hrel, ?Hnet; reflexivity.
Qed.

Lemma prefix_of_the_base_is_lost :
  urljoin cpython_uses_relative cpython_uses_netloc (base_url prefixed_server)
    (url_of_path _SPANS_ENDPOINT)
  = {| url_scheme := "https"; url_netloc := "example.org";
       url_path := "/v1/lettucedetect/spans"; url_query := ""; url_fragment := "" |}.
Proof.
  apply (base_path_is_discarded cpython_uses_relative cpython_uses_netloc
           (base_url prefixed_server) _SPANS_ENDPOINT).
  right. reflexivity.
Defined.

(** ** The clients against this server *)

Lemma endpoint_url_of_http_base base endpoint :
  url_scheme base = "http" ∨ url_scheme base = "https" →
  endpoint = _TOKEN_ENDPOINT ∨ endpoint = _SPANS_ENDPOINT →
  urljoin cpython_uses_relative cpython_uses_netloc base (url_of_path endpoint) =
  {| url_scheme := url_scheme base; url_netloc := url_netloc base;
     url_path := endpoint; url_query := ""; url_fragment := "" |}.
Proof.
  destruct base as [scheme netloc path query fragment]. simpl.
  intros [-> | ->] [-> | ->]; reflexivity.
Qed.

(** X11.  A call of either client, for either endpoint, made against this
    application, that is, with an [http] or [https] base URL that names a
    host at which the application is served: the request gets to the
    application, the router finds no route for its path, the call raises
    [HTTPStatusError] for 404, and the server is as before: the detector
    has not been called and the lock has not been touched. *)
Theorem client_call_ends_in_404 {D : Type}
    (predict : D → predict_call → outcome pyval * D) (lax lax' : LaxCoercion)
    (docs : endpoint → Response)
    (served_at : string → string → bool) (unsendable : URL → pyexc)
    (self : LettuceClientBase) (contexts : list string) (question answer : string)
    (n : net (world D)) :
  url_scheme (base_url self) = "http" ∨ url_scheme (base_url self) = "https" →
  has_host (url_netloc (base_url self)) = true →
  served_at (url_scheme (base_url self)) (url_netloc (base_url self)) = true →
  let server := app_transport predict lax docs served_at unsendable in
  let e := HTTPStatusError 404 (Json (PDict (<["detail" := PStr "Not Found"]> ∅))) in
  let after endpoint :=
    {| remote := remote n;
       sent := sent n ++ [detect_request cpython_uses_relative cpython_uses_netloc
                            self endpoint contexts question answer] |} in
  LettuceClient_detect_token server lax' cpython_uses_relative cpython_uses_netloc self
    contexts question answer n = (Raise e, after _TOKEN_ENDPOINT) ∧
  LettuceClient_detect_spans server lax' cpython_uses_relative cpython_uses_netloc self
    contexts question answer n = (Raise e, after _SPANS_ENDPOINT) ∧
  run_until_complete server
    (LettuceClientAsync_detect_token lax' cpython_uses_relative cpython_uses_netloc self
       contexts question answer) n = (Raise e, after _TOKEN_ENDPOINT) ∧
  run_until_complete server
    (LettuceClientAsync_detect_spans lax' cpython_uses_relative cpython_uses_netloc self
       contexts question answer) n = (Raise e, after _SPANS_ENDPOINT).
Proof.
  intros Hscheme Hhost Hserved server e after.
  assert (Hmiss : ∀ endpoint,
            endpoint = _TOKEN_ENDPOINT ∨ endpoint = _SPANS_ENDPOINT →
            server (remote n)
              (detect_request cpython_uses_relative cpython_uses_netloc self endpoint
                 contexts question answer)
            = (Return (json_detail 404 "Not Found"), remote n)).
  { intros endpoint Hend. unfold server, app_transport, app, reaches.
    cbn [detect_request req_method req_url].
    rewrite (endpoint_url_of_http_base _ _ Hscheme Hend).
    unfold sendable. cbn [url_scheme url_netloc url_path]. rewrite Hhost, Hserved.
    destruct Hscheme as [-> | ->]; destruct Hend as [-> | ->]; reflexivity. }
  assert (Htoken := Hmiss _TOKEN_ENDPOINT (or_introl eq_refl)).
  assert (Hspans := Hmiss _SPANS_ENDPOINT (or_intror eq_refl)).
  unfold LettuceClient_detect_token, LettuceClient_detect_spans,
    LettuceClientAsync_detect_token, LettuceClientAsync_detect_spans.
  rewrite <- !wrappers_agree.
  rewrite (wrapper_exchange server "post" _ _ (validate_TokenDetectionResponse lax')
             n _ _ Htoken).
  rewrite (wrapper_exchange server "post" _ _ (validate_SpanDetectionResponse lax')
             n _ _ Hspans).
  repeat split.
Qed.

Lemma local_client_ends_in_404 :
  let server :=
    app_transport canned_detector no_coercion no_docs on_port_8000 UnsupportedProtocol in
  let e := HTTPStatusError 404 (Json (PDict (<["detail" := PStr "Not Found"]> ∅))) in
  let after endpoint :=
    {| remote := startup tt;
       sent := [detect_request cpython_uses_relative cpython_uses_netloc
                  local_server endpoint (contexts france) (question france)
                  (answer france)] |} in
  LettuceClient_detect_token server no_coercion cpython_uses_relative cpython_uses_netloc
    local_server (contexts france) (question france) (answer france) fresh_server
    = (Raise e, after _TOKEN_ENDPOINT) ∧
  LettuceClient_detect_spans server no_coercion cpython_uses_relative cpython_uses_netloc
    local_server (contexts france) (question france) (answer france) fresh_server
    = (Raise e, after _SPANS_ENDPOINT) ∧
  run_until_complete server
    (LettuceClientAsync_detect_token no_coercion cpython_uses_relative cpython_uses_netloc
       local_server (contexts france) (question france) (answer france)) fresh_server
    = (Raise e, after _TOKEN_ENDPOINT) ∧
  run_until_complete server
    (LettuceClientAsync_detect_spans no_coercion cpython_uses_relative cpython_uses_netloc
       local_server (contexts france) (question france) (answer france)) fresh_server
    = (Raise e, after _SPANS_ENDPOINT).
Proof.
  apply (client_call_ends_in_404 canned_detector no_coercion no_coercion no_docs
           on_port_8000 UnsupportedProtocol local_server (contexts france)
           (question france) (answer france) fresh_server).
  - left. reflexivity.
  - reflexivity.
  - reflexivity.
Defined.

(** ** The routes that lead to a handler *)

Lemma first_match_full_is_match routes method path partial r p :
  first_match routes method path partial = (Some r, p) →
  r ∈ routes ∧ matches r method path = FULL.
Proof.
  revert partial. induction routes as [|r0 routes IH]; simpl; intros partial; [discriminate|].
  destruct (matches r0 method path) eqn:Hm.
  - intros H. destruct (IH _ H). split; [by right | done].
  - intros H. destruct (IH _ H). split; [by right | done].
  - intros [= <- <-]. split; [by left | done].
Qed.

(** X12.  The application runs the token handler only for a POST to
    [/lettucedetect/token], and the span handler only for a POST to
    [/lettucedetect/spans]; the path may be followed by one newline, which
    the regex of the route lets through.  No other method and no other path
    (a trailing slash included) gets there. *)
Theorem detection_needs_post_and_path (method path : string) :
  (dispatch app_routes method path = Handle TokenDetection ↔
   method = "POST" ∧
   (path = "/lettucedetect/token" ∨ path = ("/lettucedetect/token" ++ newline)%string)) ∧
  (dispatch app_routes method path = Handle SpanDetection ↔
   method = "POST" ∧
   (path = "/lettucedetect/spans" ∨ path = ("/lettucedetect/spans" ++ newline)%string)).
Proof.
  assert (Hfull : ∀ e, dispatch app_routes method path = Handle e →
            ∃ r, r ∈ app_routes ∧ route_endpoint r = e ∧ matches r method path = FULL).
  { intros e. unfold dispatch.
    destruct (first_match app_routes method path None) as [[r|] p] eqn:Hf.
    - intros [= <-]. apply first_match_full_is_match in Hf as [Hin Hm]. eauto.
    - destruct p; [discriminate|]. repeat case_match; discriminate. }
  assert (Hroute : ∀ r, r ∈ app_routes → matches r method path = FULL →
            (path = route_path r ∨ path = (route_path r ++ newline)%string) ∧
            mem method (route_methods r) = true).
  { intros r _. unfold matches, path_regex_match.
    destruct (String.eqb path (route_path r)) eqn:He.
    - apply String.eqb_eq in He.
      destruct (mem method (route_methods r)); [by split; [left|] | discriminate].
    - destruct (String.eqb path (route_path r ++ newline)) eqn:He'; [|discriminate].
      apply String.eqb_eq in He'.
      destruct (mem method (route_methods r)); [by split; [right|] | discriminate]. }
  split; split.
  - intros H. destruct (Hfull _ H) as (r & Hin & He & Hm).
    destruct (Hroute r Hin Hm) as [Hpath Hmem].
    apply list_elem_of_In in Hin. simpl in Hin.
    repeat (destruct Hin as [<-|Hin]; [try discriminate He|]); [|destruct Hin].
    simpl in Hmem. rewrite orb_false_r in Hmem. apply String.eqb_eq in Hmem. done.
  - intros [-> [-> | ->]]; reflexivity.
  - intros H. destruct (Hfull _ H) as (r & Hin & He & Hm).
    destruct (Hroute r Hin Hm) as [Hpath Hmem].
    apply list_elem_of_In in Hin. simpl in Hin.
    repeat (destruct Hin as [<-|Hin]; [try discriminate He|]); [|destruct Hin].
    simpl in Hmem. rewrite orb_false_r in Hmem. apply String.eqb_eq in Hmem. done.
  - intros [-> [-> | ->]]; reflexivity.
Qed.

(** ** The lock and the worker thread *)

(** X13.  At every instant of every run of the event loop: a [predict] is
    running only while the lock is taken; with the lock free none is
    running; and once every request is finished the lock is free. *)
Theorem predict_runs_only_under_the_lock (reqs : list (mode * DetectionRequest))
    (tr : list event) (s : loop pyval) :
  run (accept reqs) tr = Some s →
  (∀ i, being_served s i → lock s = true) ∧
  (lock s = false → in_flight s = 0%nat) ∧
  ((∀ i t, tasks s !! i = Some t → finished t) → lock s = false).
Proof.
  intros Hrun.
  assert (Hex : exclusive s) by (eapply run_exclusive, Hrun; apply accept_exclusive).
  unfold exclusive in Hex. destruct (lock s) eqn:Hl.
  - split; [done|]. split; [discriminate|]. intros Hfin. exfalso.
    destruct Hex as (j & t & Hj & Hhold & _).
    destruct (Hfin j t Hj) as [r ->]. simpl in Hhold.
    destruct Hhold; discriminate.
  - split; [|split; [|done]].
    + intros i (c & k & Hi). destruct (Hex i _ Hi).
    + intros _. unfold in_flight. rewrite filter_none; [reflexivity|].
      intros i t Hi Ht. pose proof (Hex i t Hi) as Hidle.
      destruct t; [discriminate Ht | exact Hidle].
Qed.

Lemma first_predict_runs_under_the_lock :
  ∃ s, run (accept two_requests) first_is_in = Some s ∧
       (∀ i, being_served s i → lock s = true) ∧
       (lock s = false → in_flight s = 0%nat) ∧
       ((∀ i t, tasks s !! i = Some t → finished t) → lock s = false).
Proof.
  eexists. split; [reflexivity|].
  apply (predict_runs_only_under_the_lock two_requests first_is_in). reflexivity.
Defined.

Lemma accept_staged reqs : staged reqs (accept reqs).
Proof.
  intros i t Hi. unfold accept in Hi. simpl in Hi.
  apply list_lookup_fmap_Some in Hi as ([m request] & -> & Hr).
  exists m, request. split; [exact Hr|]. left. by left.
Qed.

Lemma step_staged reqs (s s' : loop pyval) e :
  exclusive s → staged reqs s → step s e = Some s' → staged reqs s'.
Proof.
  intros Hex Hst Hstep.
  assert (Hput : ∀ i t t', tasks s !! i = Some t →
            (∀ m request, reqs !! i = Some (m, request) →
               (before_answer m request t ∨ ∃ o, answer_of t = Some (shape m o)) →
               before_answer m request t' ∨ ∃ o, answer_of t' = Some (shape m o)) →
            staged reqs {| lock := lock s'; tasks := <[i := t']> (tasks s) |}).
  { intros i t t' Hi Hnew j tj Hj. simpl in Hj.
    destruct (decide (j = i)) as [->|Hne].
    - rewrite list_lookup_insert_eq in Hj by (eapply lookup_lt_Some, Hi).
      injection Hj as <-. destruct (Hst i t Hi) as (m & request & Hr & Hstage).
      exists m, request. split; [exact Hr|]. by apply Hnew.
    - rewrite list_lookup_insert_ne in Hj by congruence. by apply Hst. }
  destruct e as [i|i r]; simpl in Hstep.
  - destruct (tasks s !! i) as [[[r|k|k|c k]|c k]|] eqn:Hi; try discriminate.
    + destruct (lock s); [discriminate|]. injection Hstep as <-.
      apply (Hput i _ _ Hi). intros m request _ [Hb|[o Ho]]; [|discriminate Ho].
      left. destruct Hb as [Hb|(K & _ & [Hb|Hb])]; try discriminate Hb.
      destruct (handler_shape m request) as (K & HK & HKo).
      rewrite HK in Hb. injection Hb as ->. right. exists K. split; [exact HKo | by left].
    + destruct (lock s) eqn:Hl.
      * injection Hstep as <-.
        apply (Hput i _ _ Hi). intros m request _ [Hb|[o Ho]].
        -- destruct Hb as [Hb|(K & _ & [Hb|Hb])]; try discriminate Hb.
           destruct (handler_shape m request) as (K & HK & _).
           rewrite HK in Hb. discriminate Hb.
        -- right. exists o. destruct k; try discriminate Ho. exact Ho.
      * unfold exclusive in Hex. rewrite Hl in Hex.
        destruct (Hex i _ Hi) as [[? _]|[? _]]; discriminate.
    + injection Hstep as <-.
      apply (Hput i _ _ Hi). intros m request _ [Hb|[o Ho]]; [|discriminate Ho].
      left. destruct Hb as [Hb|(K & HKo & [Hb|Hb])]; try discriminate Hb.
      * destruct (handler_shape m request) as (K & HK & _).
        rewrite HK in Hb. discriminate Hb.
      * injection Hb as -> ->. right. exists K. split; [exact HKo | by right].
  - destruct (tasks s !! i) as [[c|c k]|] eqn:Hi; try discriminate.
    injection Hstep as <-.
    apply (Hput i _ _ Hi). intros m request _ [Hb|[o Ho]]; [|discriminate Ho].
    right. exists r. destruct Hb as [Hb|(K & HKo & [Hb|Hb])]; try discriminate Hb.
    injection Hb as -> ->. by rewrite HKo.
Qed.

Lemma run_staged reqs (tr : list event) (s s' : loop pyval) :
  exclusive s → staged reqs s → run s tr = Some s' → staged reqs s'.
Proof.
  revert s. induction tr as [|e tr IH]; simpl; intros s Hex Hst Hrun.
  - by injection Hrun as <-.
  - destruct (step s e) as [s1|] eqn:Hstep; [|discriminate].
    eapply IH, Hrun; eauto using step_exclusive, step_staged.
Qed.

Lemma in_thread_is_before_answer reqs (s : loop pyval) j c k :
  staged reqs s → tasks s !! j = Some (InThread c k) →
  ∃ m request, reqs !! j = Some (m, request) ∧
    c = predict_call_of request (output_format_of m) ∧
    ∀ o, k o = LockRelease (Finished (shape m o)).
Proof.
  intros Hst Hj. destruct (Hst j _ Hj) as (m & request & Hr & [Hb|[o Ho]]);
    [|discriminate Ho].
  exists m, request. split; [exact Hr|].
  destruct Hb as [Hb|(K & HKo & [Hb|Hb])]; try discriminate Hb.
  injection Hb as -> ->. by split.
Qed.

(** X14.  While a [predict] is running in the thread pool, whatever it
    returns or raises: when the thread is done and its request goes on, the
    request is finished with what its handler makes of the answer (the
    exception itself, if [predict] raised), the lock is free, and the other
    requests are where they were. *)
Theorem lock_is_freed_whatever_predict_does (reqs : list (mode * DetectionRequest))
    (tr : list event) (s : loop pyval) (j : nat) (c : predict_call)
    (k : outcome pyval → coro pyval) (r : outcome pyval) :
  run (accept reqs) tr = Some s →
  tasks s !! j = Some (InThread c k) →
  ∃ m request s',
    reqs !! j = Some (m, request) ∧
    c = predict_call_of request (output_format_of m) ∧
    run s [ThreadDone j r; Resume j] = Some s' ∧
    lock s' = false ∧
    tasks s' !! j = Some (Ready (Finished (shape m r))) ∧
    (∀ i, i ≠ j → tasks s' !! i = tasks s !! i) ∧
    (∀ e, r = Raise e → shape m r = Raise e).
Proof.
  intros Hrun Hj.
  assert (Hex : exclusive s) by (eapply run_exclusive, Hrun; apply accept_exclusive).
  assert (Hst : staged reqs s)
    by (eapply run_staged, Hrun; [apply accept_exclusive | apply accept_staged]).
  destruct (in_thread_is_before_answer reqs s j c k Hst Hj) as (m & request & Hr & Hc & Hk).
  assert (Hl : lock s = true).
  { unfold exclusive in Hex. destruct (lock s); [reflexivity|]. destruct (Hex j _ Hj). }
  assert (Hlen : j < length (tasks s)) by (eapply lookup_lt_Some, Hj).
  exists m, request. eexists. split; [exact Hr|]. split; [exact Hc|].
  split.
  { simpl. rewrite Hj. simpl. rewrite list_lookup_insert_eq by exact Hlen.
    rewrite Hk, Hl. reflexivity. }
  simpl. split; [reflexivity|]. split.
  { apply list_lookup_insert_eq. by rewrite length_insert. }
  split.
  { intros i Hne. by rewrite !list_lookup_insert_ne by congruence. }
  intros e ->. reflexivity.
Qed.

Lemma first_request_frees_the_lock :
  ∃ s, run (accept two_requests) first_is_in = Some s ∧
  ∃ m request s',
    two_requests !! 0 = Some (m, request) ∧
    predict_call_of france "tokens" = predict_call_of request (output_format_of m) ∧
    run s [ThreadDone 0 (Raise out_of_memory); Resume 0] = Some s' ∧
    lock s' = false ∧
    tasks s' !! 0 = Some (Ready (Finished (shape m (Raise out_of_memory)))) ∧
    (∀ i, i ≠ 0 → tasks s' !! i = tasks s !! i) ∧
    (∀ e, @Raise pyval out_of_memory = Raise e → shape m (Raise out_of_memory) = Raise e).
Proof.
  eexists. split; [reflexivity|].
  eapply (lock_is_freed_whatever_predict_does two_requests first_is_in); reflexivity.
Defined.

(** ** Concurrent requests and the detector *)

Section Serial.
Context {D : Type} (predict : D → predict_call → outcome pyval * D).
Context (reqs : list (mode * DetectionRequest)) (d0 : D).

Lemma serve_in_order_snoc turns i m request (w w1 w2 : world D) results o :
  serve_in_order predict reqs turns w = Some (results, w1) →
  reqs !! i = Some (m, request) →
  run_alone predict (handler m request) w1 = Some (o, w2) →
  serve_in_order predict reqs (turns ++ [i]) w = Some (results ++ [(i, o)], w2).
Proof.
  intros Hserve Hi Hrun. revert w results Hserve.
  induction turns as [|j turns IH]; intros w results; simpl.
  - intros [= <- <-]. rewrite Hi. simpl. rewrite Hrun. reflexivity.
  - destruct (reqs !! j) as [[mj rj]|]; simpl; [|discriminate].
    destruct (run_alone predict (handler mj rj) w) as [[oj wj]|]; simpl; [|discriminate].
    destruct (serve_in_order predict reqs turns wj) as [[rs wr]|] eqn:Hrest;
      simpl; [|discriminate].
    intros [= <- <-]. rewrite (IH wj rs Hrest). reflexivity.
Qed.

Lemma serve_in_order_turns turns (w w' : world D) results :
  serve_in_order predict reqs turns w = Some (results, w') →
  results.*1 = turns ∧ ∀ i, i ∈ turns → is_Some (reqs !! i).
Proof.
  revert w results. induction turns as [|j turns IH]; intros w results; simpl.
  - intros [= <- <-]. split; [reflexivity|]. intros i Hi. by apply elem_of_nil in Hi.
  - destruct (reqs !! j) as [[mj rj]|] eqn:Hj; simpl; [|discriminate].
    destruct (run_alone predict (handler mj rj) w) as [[oj wj]|]; simpl; [|discriminate].
    destruct (serve_in_order predict reqs turns wj) as [[rs wr]|] eqn:Hrest;
      simpl; [|discriminate].
    intros [= <- <-]. destruct (IH wj rs Hrest) as [Hfst Hall]. split.
    + rewrite fmap_cons. simpl. by f_equal.
    + intros i [->|Hi]%elem_of_cons; [by rewrite Hj | by apply Hall].
Qed.

Lemma resume_keeps_answers (l l' : loop pyval) i :
  exclusive l → staged reqs l → step l (Resume i) = Some l' →
  ∀ j t', tasks l' !! j = Some t' →
          ∃ t, tasks l !! j = Some t ∧ answer_of t' = answer_of t.
Proof.
  intros Hex Hst Hstep j t' Hj.
  assert (Hput : ∀ t tnew, tasks l !! i = Some t → answer_of tnew = answer_of t →
            tasks l' = <[i := tnew]> (tasks l) →
            ∃ t0, tasks l !! j = Some t0 ∧ answer_of t' = answer_of t0).
  { intros t tnew Hi Hans Htasks. rewrite Htasks in Hj.
    destruct (decide (j = i)) as [->|Hne].
    - rewrite list_lookup_insert_eq in Hj by (eapply lookup_lt_Some, Hi).
      injection Hj as <-. eauto.
    - rewrite list_lookup_insert_ne in Hj by congruence. eauto. }
  simpl in Hstep.
  destruct (tasks l !! i) as [[[r|k|k|c k]|c k]|] eqn:Hi; try discriminate.
  - destruct (lock l); [discriminate|]. injection Hstep as <-.
    apply (Hput _ (Ready k) eq_refl); [|reflexivity].
    destruct (Hst i _ Hi) as (m & request & _ & [Hb|[o Ho]]); [|discriminate Ho].
    destruct Hb as [Hb|(K & _ & [Hb|Hb])]; try discriminate Hb.
    destruct (handler_shape m request) as (K & HK & _).
    rewrite HK in Hb. by injection Hb as ->.
  - destruct (lock l) eqn:Hl.
    + injection Hstep as <-. apply (Hput _ (Ready k) eq_refl); [|reflexivity].
      destruct (Hst i _ Hi) as (m & request & _ & [Hb|[o Ho]]).
      * destruct Hb as [Hb|(K & _ & [Hb|Hb])]; try discriminate Hb.
        destruct (handler_shape m request) as (K & HK & _).
        rewrite HK in Hb. discriminate Hb.
      * destruct k; try discriminate Ho. reflexivity.
    + unfold exclusive in Hex. rewrite Hl in Hex.
      destruct (Hex i _ Hi) as [[? _]|[? _]]; discriminate.
  - injection Hstep as <-. by apply (Hput _ (InThread c k) eq_refl).
Qed.

Lemma advance_is_step (s s' : shared_loop D pyval) i :
  advance predict s i = Some s' → ∃ e, step (the_loop s) e = Some (the_loop s').
Proof.
  unfold advance. destruct (tasks (the_loop s) !! i) as [[c|c k]|].
  - destruct (step (the_loop s) (Resume i)) as [l|] eqn:Hl; simpl; [|discriminate].
    intros [= <-]. eauto.
  - destruct (predict (the_detector s) c) as [r d].
    destruct (step (the_loop s) (ThreadDone i r)) as [l|] eqn:Hl; simpl; [|discriminate].
    intros [= <-]. eauto.
  - destruct (step (the_loop s) (Resume i)) as [l|] eqn:Hl; simpl; [|discriminate].
    intros [= <-]. eauto.
Qed.

Lemma advance_serialized (s s' : shared_loop D pyval) i :
  exclusive (the_loop s) → staged reqs (the_loop s) →
  serialized predict reqs d0 s → advance predict s i = Some s' →
  serialized predict reqs d0 s'.
Proof.
  intros Hex Hst (results & w & Hserve & Hdet & Hfree & Hcalls & Hnodup & Hans) Hadv.
  assert (Hresume : ∀ l, step (the_loop s) (Resume i) = Some l →
            serialized predict reqs d0
              {| the_loop := l; the_detector := the_detector s; order := order s |}).
  { intros l Hl. exists results, w. repeat (split; [assumption|]). simpl.
    intros j t' Hj o.
    destruct (resume_keeps_answers _ _ _ Hex Hst Hl j t' Hj) as (t & Ht & ->).
    by apply Hans. }
  unfold advance in Hadv.
  destruct (tasks (the_loop s) !! i) as [[c|c k]|] eqn:Hi.
  - destruct (step (the_loop s) (Resume i)) as [l|] eqn:Hl; simpl in Hadv; [|discriminate].
    injection Hadv as <-. by apply Hresume.
  - destruct (in_thread_is_before_answer reqs _ i c k Hst Hi)
      as (m & request & Hr & -> & Hk).
    destruct (predict (the_detector s) _) as [r d] eqn:Hp.
    simpl in Hadv. rewrite Hi in Hadv. simpl in Hadv. injection Hadv as <-.
    assert (Hfresh : i ∉ order s).
    { destruct (serve_in_order_turns _ _ _ _ Hserve) as [<- _].
      intros Hin. apply list_elem_of_fmap in Hin as ([i' o] & -> & Hin).
      apply (Hans _ _ Hi) in Hin. discriminate Hin. }
    rewrite <- Hdet in Hp.
    pose proof (handler_alone predict m request w r d Hfree Hp) as Halone.
    exists (results ++ [(i, shape m r)]). eexists. simpl.
    split; [by apply (serve_in_order_snoc _ _ m request _ w)|].
    split; [reflexivity|]. split; [reflexivity|].
    split; [simpl; rewrite !length_app; simpl; lia|].
    split.
    { apply NoDup_app. split; [exact Hnodup|]. split; [|apply NoDup_singleton].
      intros x Hx ->%list_elem_of_singleton. contradiction. }
    intros j t' Hj o. rewrite elem_of_app, list_elem_of_singleton.
    destruct (decide (j = i)) as [->|Hne].
    + rewrite list_lookup_insert_eq in Hj by (eapply lookup_lt_Some, Hi).
      injection Hj as <-. rewrite Hk. simpl. split.
      * intros [= <-]. by right.
      * intros [Hin|[= <-]]; [|reflexivity]. exfalso. apply Hfresh.
        destruct (serve_in_order_turns _ _ _ _ Hserve) as [<- _].
        apply list_elem_of_fmap. by exists (i, o).
    + rewrite list_lookup_insert_ne in Hj by congruence.
      rewrite (Hans j t' Hj o). split; [by left|].
      intros [Hin|[= -> _]]; [exact Hin | contradiction].
  - destruct (step (the_loop s) (Resume i)) as [l|] eqn:Hl; simpl in Hadv; [|discriminate].
    injection Hadv as <-. by apply Hresume.
Qed.

Lemma step_length {A} (l l' : loop A) e :
  step l e = Some l' → length (tasks l') = length (tasks l).
Proof.
  destruct e as [j|j r]; simpl; intros He;
    repeat case_match; simplify_eq; simpl; by rewrite ?length_insert.
Qed.

Lemma schedule_invariants (sched : list nat) (s s' : shared_loop D pyval) :
  exclusive (the_loop s) → staged reqs (the_loop s) →
  length (tasks (the_loop s)) = length reqs →
  serialized predict reqs d0 s →
  schedule predict s sched = Some s' →
  staged reqs (the_loop s') ∧ length (tasks (the_loop s')) = length reqs ∧
  serialized predict reqs d0 s'.
Proof.
  revert s. induction sched as [|i sched IH]; simpl; intros s Hex Hst Hlen Hser Hrun.
  - by injection Hrun as <-.
  - destruct (advance predict s i) as [s1|] eqn:Hadv; simpl in Hrun; [|discriminate].
    destruct (advance_is_step _ _ _ Hadv) as [e He].
    apply (IH s1);
      [exact (step_exclusive _ _ _ Hex He) | exact (step_staged _ _ _ _ Hex Hst He) | |
       exact (advance_serialized s s1 i Hex Hst Hser Hadv) | exact Hrun].
    rewrite <- Hlen. exact (step_length _ _ _ He).
Qed.
End Serial.

(** X15.  However the event loop schedules the accepted requests against
    the one detector: the detector is in the state, and every finished
    request has the outcome, that serving the answered requests one after
    the other (each alone, in the order in which their [predict] ended)
    gives; [predict] has been called once for each of them; and when all
    requests are finished that order has every request exactly once. *)
Theorem concurrent_requests_are_served_in_some_order {D : Type}
    (predict : D → predict_call → outcome pyval * D)
    (reqs : list (mode * DetectionRequest)) (d0 : D)
    (sched : list nat) (s : shared_loop D pyval) :
  schedule predict (accept_with d0 reqs) sched = Some s →
  ∃ results w,
    serve_in_order predict reqs (order s) (startup d0) = Some (results, w) ∧
    detector w = the_detector s ∧
    length (calls w) = length (order s) ∧
    NoDup (order s) ∧
    (∀ i o, tasks (the_loop s) !! i = Some (Ready (Finished o)) → (i, o) ∈ results) ∧
    ((∀ i t, tasks (the_loop s) !! i = Some t → finished t) →
     order s ≡ₚ seq 0 (length reqs)).
Proof.
  intros Hrun.
  destruct (schedule_invariants predict reqs d0 sched (accept_with d0 reqs) s)
    as (Hst & Hlen & results & w & Hserve & Hdet & Hfree & Hcalls & Hnodup & Hans).
  - apply accept_exclusive.
  - apply accept_staged.
  - simpl. by rewrite length_fmap.
  - exists [], (startup d0). simpl. repeat (split; [done || constructor|]).
    intros i t Hi o. apply list_lookup_fmap_Some in Hi as ([m request] & -> & _).
    destruct (handler_shape m request) as (K & HK & _). simpl. rewrite HK. simpl.
    split; [discriminate | by intros ?%elem_of_nil].
  - exact Hrun.
  - exists results, w. repeat (split; [assumption|]). split.
    + intros i o Hi. by apply (Hans i _ Hi).
    + intros Hfin. destruct (serve_in_order_turns _ _ _ _ _ _ Hserve) as [Hfst Hreq].
      apply NoDup_Permutation; [exact Hnodup | apply NoDup_seq|].
      intros i. rewrite elem_of_seq. split.
      * intros Hi. destruct (Hreq i Hi) as [x Hx]. apply lookup_lt_Some in Hx. lia.
      * intros [_ Hi]. simpl in Hi. rewrite <- Hlen in Hi.
        destruct (lookup_lt_is_Some_2 _ _ Hi) as [t Ht].
        destruct (Hfin i t Ht) as [r ->].
        rewrite <- Hfst. apply list_elem_of_fmap. exists (i, r). split; [reflexivity|].
        by apply (Hans i _ Ht).
Qed.

Lemma second_request_served_first :
  ∃ s, schedule counting_detector (accept_with 0%nat two_requests) second_goes_first
         = Some s ∧
       order s = [1; 0]%nat ∧ the_detector s = 2%nat ∧
  ∃ results w,
    serve_in_order counting_detector two_requests (order s) (startup 0%nat)
      = Some (results, w) ∧
    detector w = the_detector s ∧
    length (calls w) = length (order s) ∧
    NoDup (order s) ∧
    (∀ i o, tasks (the_loop s) !! i = Some (Ready (Finished o)) → (i, o) ∈ results) ∧
    ((∀ i t, tasks (the_loop s) !! i = Some t → finished t) →
     order s ≡ₚ seq 0 (length two_requests)).
Proof.
  eexists. split; [reflexivity|]. split; [reflexivity|]. split; [reflexivity|].
  apply (concurrent_requests_are_served_in_some_order counting_detector two_requests
           0%nat second_goes_first).
  reflexivity.
Defined.

(** ** The model option of the launch script *)



